(** * BlackMamba Studio icon generator: [scripts/create_icons.py]

    A shallow embedding of the script and the properties of its three
    outputs (Windows icon bundle, Apple icon bundle, flat PNG).

    Python integers are [Z], Python floats are binary64 ([PrimFloat]),
    [str] is [string], [bytes] is [list byte].  An exception is an [Err]
    result.  The imaging library (Pillow) and libm are not part of the
    script: what the script needs of them is collected in the class
    [Externals]; their documented argument checks are written out.  The
    operating system is not part of it either: every call that reaches it
    is recorded, and the class [System] decides whether the call raises.
    Memory is taken to be unbounded, and with it the sizes the imaging
    library can hold. *)

From Stdlib Require Import ZArith Floats.
From Stdlib.Strings Require Import Ascii String Byte.
From stdpp Require Import base option list sorting strings sets.

Local Open Scope Z_scope.

Set Warnings "-inexact-float".

(** ** Exceptions and results *)

Inductive PyError : Type :=
| IndexError
| ValueError
| UnicodeEncodeError
| StructError
| SystemError
| OverflowError
| OSError.

Inductive result (A : Type) : Type :=
| Ok (a : A)
| Err (e : PyError).
Arguments Ok {A} a.
Arguments Err {A} e.

#[global] Instance result_ret : MRet result := fun _ a => Ok a.
#[global] Instance result_bind : MBind result := fun _ _ f m =>
  match m with
  | Ok a => f a
  | Err e => Err e
  end.

Definition is_Ok {A} (r : result A) : Prop := ∃ a, r = Ok a.

(** [[f(x) for x in l]]: evaluation stops at the first exception. *)
Fixpoint list_comprehension {A B} (f : A → result B) (l : list A) : result (list B) :=
  match l with
  | [] => Ok []
  | x :: l' => y ← f x; ys ← list_comprehension f l'; Ok (y :: ys)
  end.

(** [l[i]] for a non-negative index. *)
Definition py_index {A} (l : list A) (i : nat) : result A :=
  match l !! i with
  | Some a => Ok a
  | None => Err IndexError
  end.

(** ** Bytes, [str.encode] and [struct.pack] *)

Module Bytes.

Definition of_Z (z : Z) : byte :=
  default "000"%byte (Byte.of_N (Z.to_N (z mod 256))).

Definition to_Z (b : byte) : Z := Z.of_N (Byte.to_N b).

Definition len (bs : list byte) : Z := Z.of_nat (length bs).

(** Bytes literal of an ASCII string, e.g. [b'icns']. *)
Definition lit (s : string) : list byte := list_byte_of_string s.

(** Big-endian and little-endian readings of a byte string. *)
Definition be_decode (bs : list byte) : Z :=
  fold_left (fun acc b => acc * 256 + to_Z b) bs 0.

Definition le_decode (bs : list byte) : Z :=
  fold_right (fun b acc => to_Z b + 256 * acc) 0 bs.

(** [bs[i:j]] for [0 <= i <= j]. *)
Definition slice (i j : nat) (bs : list byte) : list byte :=
  take (j - i) (drop i bs).

End Bytes.

Definition is_ascii_char (c : ascii) : bool := (N_of_ascii c <? 128)%N.

(** [code.encode('ascii')]: a character beyond U+007F raises. *)
Definition encode_ascii (s : string) : result (list byte) :=
  if forallb is_ascii_char (list_ascii_of_string s)
  then Ok (list_byte_of_string s)
  else Err UnicodeEncodeError.

Module struct.

Definition in_range (bits n : Z) : bool := (0 <=? n) && (n <? 2 ^ bits).

(** [struct.pack('>I', n)] *)
Definition pack_BE_I (n : Z) : result (list byte) :=
  if in_range 32 n
  then Ok [Bytes.of_Z (n ≫ 24); Bytes.of_Z (n ≫ 16); Bytes.of_Z (n ≫ 8); Bytes.of_Z n]
  else Err StructError.

(** [struct.pack('<I', n)] *)
Definition pack_LE_I (n : Z) : result (list byte) :=
  if in_range 32 n
  then Ok [Bytes.of_Z n; Bytes.of_Z (n ≫ 8); Bytes.of_Z (n ≫ 16); Bytes.of_Z (n ≫ 24)]
  else Err StructError.

(** [struct.pack('<H', n)] *)
Definition pack_LE_H (n : Z) : result (list byte) :=
  if in_range 16 n
  then Ok [Bytes.of_Z n; Bytes.of_Z (n ≫ 8)]
  else Err StructError.

End struct.

(** ** Floats *)

Module PyFloat.

(** The binary64 value nearest to an integer, ties to even; the infinity
    where the rounding leaves the binary64 range. *)
Definition nearest (n : Z) : float :=
  SF2Prim (binary_normalize prec emax n 0 false).

(** The largest int that converts to a float: the largest binary64 value
    is 2^1024 - 2^971, and the ints from 2^1024 - 2^970 on round to 2^1024. *)
Definition max_int : Z := Eval vm_compute in 2 ^ 1024 - 2 ^ 970 - 1.

(** The conversion of an int operand in mixed arithmetic ([size * 0.3],
    [center + x]): "OverflowError: int too large to convert to float". *)
Definition of_int (n : Z) : result float :=
  if Z.abs n <=? max_int then Ok (nearest n) else Err OverflowError.

(** [a / b] on ints whose values are exactly representable. *)
Definition true_div (a b : Z) : float := (nearest a / nearest b)%float.

(** [int(x)]: truncation towards zero of a finite float. *)
Definition to_int (x : float) : Z :=
  match Prim2SF x with
  | S754_finite s m e =>
      let mag := if 0 <=? e then Z.pos m * 2 ^ e else Z.pos m / 2 ^ (- e) in
      if s then - mag else mag
  | _ => 0
  end.

End PyFloat.

(** [range(n)] *)
Definition range (n : Z) : list Z := seqZ 0 n.

(** ** Images *)

Definition RGBA : Type := Z * Z * Z * Z.
Definition Box : Type := Z * Z * Z * Z.
Definition Point : Type := float * float.

(** One call on an [ImageDraw.Draw] object. *)
Inductive DrawOp : Type :=
| Ellipse (xy : Box) (fill : RGBA)
| Line (p q : Point) (fill : RGBA) (width : Z)
| Rectangle (xy : Box) (fill : RGBA).

(** A Pillow image: its mode, its size, the colour it was created with and
    the drawing calls made on it since, oldest first. *)
Record Image : Type := mkImage {
  im_mode : string;
  im_size : Z * Z;
  im_color : RGBA;
  im_ops : list DrawOp
}.

Definition op_fill (op : DrawOp) : RGBA :=
  match op with
  | Ellipse _ fill => fill
  | Line _ _ fill _ => fill
  | Rectangle _ fill => fill
  end.

(** What the script takes from outside its own text. *)
Class Externals : Type := {
  (** the PNG encoder behind [img.save(..., format='PNG')] *)
  png_encode : Image → list byte;
  (** the rasteriser of the drawing core: does the call paint pixel (x, y)? *)
  covers : DrawOp → Z → Z → bool;
  (** [Image.thumbnail(size, LANCZOS)] on a copy *)
  thumbnail : Image → Z * Z → Image;
  (** libm's [pow], behind [float ** int] *)
  float_pow : float → float → float
}.

Module PIL.

(** [Image.new(mode, size, color)]: a negative dimension is refused. *)
Definition new (mode : string) (size : Z * Z) (color : RGBA) : result Image :=
  if (size.1 <? 0) || (size.2 <? 0)
  then Err ValueError
  else Ok (mkImage mode size color []).

Definition draw (img : Image) (op : DrawOp) : Image :=
  mkImage (im_mode img) (im_size img) (im_color img) (im_ops img ++ [op]).

Definition box_ordered (xy : Box) : bool :=
  let '(x0, y0, x1, y1) := xy in (x0 <=? x1) && (y0 <=? y1).

(** [draw.ellipse(xy, fill=fill)]: x1 < x0 or y1 < y0 is refused. *)
Definition ellipse (img : Image) (xy : Box) (fill : RGBA) : result Image :=
  if box_ordered xy then Ok (draw img (Ellipse xy fill)) else Err ValueError.

(** [draw.rectangle(xy, fill=fill)], with the same check. *)
Definition rectangle (img : Image) (xy : Box) (fill : RGBA) : result Image :=
  if box_ordered xy then Ok (draw img (Rectangle xy fill)) else Err ValueError.

(** [draw.line([p, q], fill=fill, width=width)] *)
Definition line (img : Image) (p q : Point) (fill : RGBA) (width : Z) : Image :=
  draw img (Line p q fill width).


(** [img.save(buffer, format='PNG')]: the encoder refuses an image with
    no pixels. *)
Definition save_png `{Externals} (img : Image) : result (list byte) :=
  if (img.(im_size).1 <=? 0) || (img.(im_size).2 <=? 0)
  then Err SystemError
  else Ok (png_encode img).

End PIL.

(** ** The rasterizer: [create_base_icon] *)

Definition GRADIENT_ITERATIONS : Z := 10.
Definition DEFAULT_ICON_SIZE : Z := 512.
Definition BRAND_COLOR : Z * Z * Z := (0, 212, 255).

(** [BRAND_COLOR + (alpha,)] *)
Definition with_alpha (rgb : Z * Z * Z) (alpha : Z) : RGBA :=
  let '(r, g, b) := rgb in (r, g, b, alpha).

Definition gradient_radius (center i : Z) : Z := Z.max 1 (center - i * 2).

(** [int(255 * (1 - i/GRADIENT_ITERATIONS))]; the ints 255 and 1 convert
    exactly. *)
Definition gradient_alpha (i : Z) : Z :=
  PyFloat.to_int
    (PyFloat.nearest 255 * (PyFloat.nearest 1 - PyFloat.true_div i GRADIENT_ITERATIONS))%float.

(** One turn of the gradient loop. *)
Definition gradient_step (center : Z) (img : Image) (i : Z) : result Image :=
  let radius := gradient_radius center i in
  if 0 <? radius then
    let alpha := gradient_alpha i in
    let color := with_alpha BRAND_COLOR alpha in
    PIL.ellipse img (center - radius, center - radius, center + radius, center + radius) color
  else Ok img.

(** [for x in l: img = step(img, x)] *)
Fixpoint for_each {A S} (step : S → A → result S) (l : list A) (s : S) : result S :=
  match l with
  | [] => Ok s
  | x :: l' => s' ← step s x; for_each step l' s'
  end.

Definition gradient_loop (center : Z) (img : Image) : result Image :=
  for_each (gradient_step center) (range GRADIENT_ITERATIONS) img.

Section Rasterizer.
Context `{Externals}.

(** The i-th point of the S-shaped path, its operands converted in the
    order the two expressions are evaluated; the ints 3 and 8 convert
    exactly. *)
Definition snake_point (size center i : Z) : result Point :=
  let t := PyFloat.true_div i 100 in
  size_x ← PyFloat.of_int size;
  let dx := (size_x * 0.3 * (t - 0.5))%float in
  center_x ← PyFloat.of_int center;
  let x := (center_x + dx)%float in
  size_y ← PyFloat.of_int size;
  let dy := (size_y * 0.4 * float_pow (t - 0.5) (PyFloat.nearest 3) * PyFloat.nearest 8)%float in
  center_y ← PyFloat.of_int center;
  let y := (center_y + dy)%float in
  Ok (x, y).

(** [points = []; for i in range(100): ...; points.append((x, y))] *)
Definition snake_points (size center : Z) : result (list Point) :=
  list_comprehension (snake_point size center) (range 100).

(** [for i in range(len(points) - 1): draw.line([points[i], points[i+1]], ...)] *)
Definition draw_snake (points : list Point) (fill : RGBA) (width : Z) (img : Image) : Image :=
  fold_left (fun im i =>
               match points !! Z.to_nat i, points !! Z.to_nat (i + 1) with
               | Some p, Some q => PIL.line im p q fill width
               | _, _ => im
               end)
            (range (Z.of_nat (length points) - 1)) img.

Definition create_base_icon (size : Z) : result Image :=
  img ← PIL.new "RGBA" (size, size) (0, 0, 0, 0);
  let center := size / 2 in
  img ← gradient_loop center img;
  if 32 <=? size then
    let snake_width := Z.max 2 (size / 8) in
    let snake_color := (255, 255, 255, 255) in
    points ← snake_points size center;
    let img := draw_snake points snake_color snake_width img in
    let eye_size := Z.max 1 (size / 20) in
    let eye_y := center - size / 4 in
    if 0 <? eye_size then
      img ← PIL.ellipse img (center - size / 6 - eye_size, eye_y - eye_size,
                             center - size / 6 + eye_size, eye_y + eye_size)
                        (255, 0, 100, 255);
      PIL.ellipse img (center + size / 6 - eye_size, eye_y - eye_size,
                       center + size / 6 + eye_size, eye_y + eye_size)
                  (255, 0, 100, 255)
    else Ok img
  else
    let margin := size / 4 in
    PIL.rectangle img (margin, margin, size - margin, size - margin)
                  (255, 255, 255, 255).

End Rasterizer.

(** ** The outside world: the operating system and the console

    What a call does to the disk or the console, and whether it raises (a
    missing directory, a path that is a directory, no permission, a full
    disk, a console that cannot show a character), is the operating
    system's affair.  The script's part is which calls it makes, with
    which arguments and in which order. *)

Inductive Call : Type :=
| Makedirs (path : string)    (* os.makedirs(path, exist_ok=True) *)
| Open (path : string)        (* open(path, 'wb'), also within Image.save(path) *)
| WriteBytes (path : string) (data : list byte)
                              (* the bytes written to the open file, up to its close *)
| Abandon (path : string)     (* Image.save closing the file after its encoder raised *)
| PrintLine (line : string).  (* print(line) *)

(** The operating system: its state, and its answer to a call (the
    exception it raises, if any, and its next state). *)
Class System : Type := {
  State : Type;
  respond : Call → State → option PyError * State
}.

Section World.
Context `{System}.

(** The state of the system and the calls made so far, oldest first. *)
Record World : Type := mkWorld {
  state : State;
  calls : list Call
}.

(** A statement that may raise and may change the world. *)
Definition IO (A : Type) : Type := World → result A * World.

Definition and_then {A B} (m : IO A) (k : A → IO B) : IO B := fun w =>
  match m w with
  | (Ok a, w') => k a w'
  | (Err e, w') => (Err e, w')
  end.

(** A computation that leaves the world alone. *)
Definition pure {A} (r : result A) : IO A := fun w => (r, w).

Definition call (c : Call) : IO () := fun w =>
  let '(answer, s) := respond c (state w) in
  (match answer with None => Ok () | Some e => Err e end, mkWorld s (calls w ++ [c])).

Definition print (line : string) : IO () := call (PrintLine line).

(** [os.makedirs(path, exist_ok=True)] *)
Definition makedirs (path : string) : IO () := call (Makedirs path).

(** [with open(path, 'wb') as f: f.write(data)] *)
Definition write_file (path : string) (data : list byte) : IO () :=
  and_then (call (Open path)) (fun _ => call (WriteBytes path data)).

(** [img.save(path, format=...)]: the file is opened first, then the
    encoder runs and its bytes go to the file; when the encoder raises,
    the file is closed and the exception goes on. *)
Definition save (path : string) (encoded : result (list byte)) : IO () :=
  and_then (call (Open path)) (fun _ =>
  match encoded with
  | Ok data => call (WriteBytes path data)
  | Err e => fun w => (Err e, (call (Abandon path) w).2)
  end).

End World.

Module os_path.

Definition sep : ascii := "/"%char.
Definition is_sep (c : ascii) : bool := bool_decide (c = sep).

Fixpoint drop_while {A} (p : A → bool) (l : list A) : list A :=
  match l with
  | [] => []
  | x :: l' => if p x then drop_while p l' else l
  end.

(** [posixpath.dirname] *)
Definition dirname (p : string) : string :=
  let rhead := drop_while (fun c => negb (is_sep c)) (rev (list_ascii_of_string p)) in
  let rhead :=
    if bool_decide (rhead ≠ []) && negb (forallb is_sep rhead)
    then drop_while is_sep rhead
    else rhead in
  string_of_list_ascii (rev rhead).

Definition startswith_sep (p : string) : bool :=
  match p with
  | String c _ => is_sep c
  | EmptyString => false
  end.

Definition endswith_sep (p : string) : bool :=
  match rev (list_ascii_of_string p) with
  | c :: _ => is_sep c
  | [] => false
  end.

(** [posixpath.join(a, b)] *)
Definition join (a b : string) : string :=
  if startswith_sep b then b
  else if bool_decide (a = "") || endswith_sep a then a +:+ b
  else a +:+ "/" +:+ b.

End os_path.

(** ** The Windows icon writer of the imaging library

    [Image.save(fp, format='ICO', sizes=..., append_images=...)] with PNG
    payloads.  The library's documentation of [sizes]: "Any sizes bigger
    than the original size or 256 will be ignored"; of [append_images]:
    "A list of images to replace the scaled down versions of the image.
    The order of the images does not matter, as their use is determined by
    the size of each image."  The writer walks [sorted(set(sizes))], skips
    a size wider or higher than the image being saved or than 256, and
    serves each remaining size by the first provided image of exactly that
    size, else by a thumbnail of the last provided image.  The file is the
    6-byte header, one 16-byte directory entry per frame, and the
    payloads in frame order. *)

Module Ico.

Definition _MAGIC : list byte := ["000"; "000"; "001"; "000"]%byte.

Definition o8 (i : Z) : list byte := [Bytes.of_Z (Z.land i 255)].
Definition o16 (i : Z) : result (list byte) := struct.pack_LE_H i.
Definition o32 (i : Z) : result (list byte) := struct.pack_LE_I i.

Definition size_eqb (a b : Z * Z) : bool := (a.1 =? b.1) && (a.2 =? b.2).
Definition size_ltb (a b : Z * Z) : bool :=
  (a.1 <? b.1) || ((a.1 =? b.1) && (a.2 <? b.2)).

Fixpoint insert_size (s : Z * Z) (l : list (Z * Z)) : list (Z * Z) :=
  match l with
  | [] => [s]
  | x :: l' =>
      if size_ltb s x then s :: l
      else if size_eqb s x then l
      else x :: insert_size s l'
  end.

(** [sorted(set(sizes))] *)
Definition sorted_set (sizes : list (Z * Z)) : list (Z * Z) :=
  foldr insert_size [] sizes.

Section Save.
Context `{Externals}.

Definition frames (im : Image) (sizes : list (Z * Z)) (append_images : list Image)
  : list Image :=
  let provided_ims := im :: append_images in
  let '(width, height) := im_size im in
  flat_map
    (fun size =>
       if (width <? size.1) || (height <? size.2) || (256 <? size.1) || (256 <? size.2)
       then []
       else match find (fun provided_im => size_eqb (im_size provided_im) size) provided_ims with
            | Some provided_im => [provided_im]
            | None => [thumbnail (List.last provided_ims im) size]
            end)
    (sorted_set sizes).

(** The 16-byte directory entry of a frame and its payload. *)
Definition entry (frame : Image) (offset : Z) : result (list byte * list byte) :=
  let '(width, height) := im_size frame in
  let head :=
    o8 (if width <? 256 then width else 0) ++ o8 (if height <? 256 then height else 0)
    ++ o8 0 ++ ["000"]%byte ++ ["000"; "000"]%byte in
  bits ← o16 32;
  image_bytes ← PIL.save_png frame;
  let bytes_len := Bytes.len image_bytes in
  len_field ← o32 bytes_len;
  off_field ← o32 offset;
  Ok (head ++ bits ++ len_field ++ off_field, image_bytes).

(** The loop over the frames: directory entries and payloads, the
    payloads laid one after another from [offset] on. *)
Fixpoint write_frames (fs : list Image) (offset : Z) : result (list byte * list byte) :=
  match fs with
  | [] => Ok ([], [])
  | frame :: fs' =>
      e ← entry frame offset;
      rest ← write_frames fs' (offset + Bytes.len e.2);
      Ok (e.1 ++ rest.1, e.2 ++ rest.2)
  end.

Definition save (im : Image) (sizes : list (Z * Z)) (append_images : list Image)
  : result (list byte) :=
  let fs := frames im sizes append_images in
  count ← o16 (Z.of_nat (length fs));
  let offset := Bytes.len (_MAGIC ++ count) + Z.of_nat (length fs) * 16 in
  out ← write_frames fs offset;
  Ok (_MAGIC ++ count ++ out.1 ++ out.2).

End Save.

(** Reading the directory back: (width, height, byte length, offset) per
    entry, with 0 standing for 256 as the format has it. *)
Definition dim (b : byte) : Z := if Bytes.to_Z b =? 0 then 256 else Bytes.to_Z b.

Definition read_entry (blob : list byte) (k : nat) : Z * Z * Z * Z :=
  let e := Bytes.slice (6 + 16 * k) (6 + 16 * k + 16) blob in
  (dim (default "000"%byte (e !! 0%nat)), dim (default "000"%byte (e !! 1%nat)),
   Bytes.le_decode (Bytes.slice 8 12 e), Bytes.le_decode (Bytes.slice 12 16 e)).

Definition count (blob : list byte) : Z := Bytes.le_decode (Bytes.slice 4 6 blob).

Definition directory (blob : list byte) : list (Z * Z * Z * Z) :=
  map (read_entry blob) (seq 0 (Z.to_nat (count blob))).

End Ico.

(** ** The packers and the driver *)

(** The size list of [create_ico]. *)
Definition ico_sizes : list Z := [16; 32; 48; 64; 128; 256].

(** The table of [create_icns]. *)
Definition icns_sizes : list (Z * string) :=
  [ (16, "ic04"); (32, "ic05"); (64, "ic06"); (128, "ic07"); (256, "ic08");
    (512, "ic09"); (1024, "ic10");
    (32, "ic11"); (64, "ic12"); (256, "ic13"); (512, "ic14") ].

(** ["=" * n] *)
Definition str_repeat (s : string) (n : nat) : string :=
  Nat.iter n (String.append s) "".

Section Script.
Context `{Externals} `{System}.

(** [create_ico] up to the file, with its size list as a parameter. *)
Definition ico_file (sizes : list Z) : result (list byte) :=
  images ← list_comprehension create_base_icon sizes;
  im ← py_index images 0;
  Ico.save im (map (fun s => (s, s)) sizes) (drop 1 images).

Definition create_ico_with (sizes : list Z) (output_path : string) : IO () :=
  and_then (pure (list_comprehension create_base_icon sizes)) (fun images =>
  and_then (pure (py_index images 0)) (fun im =>
  and_then (save output_path (Ico.save im (map (fun s => (s, s)) sizes) (drop 1 images)))
           (fun _ =>
  print ("✓ Created Windows icon: " +:+ output_path)))).

Definition create_ico : string → IO () := create_ico_with ico_sizes.

(** The PNG payload of one table row. *)
Definition icns_png (size : Z) : result (list byte) :=
  img ← create_base_icon size;
  PIL.save_png img.

(** The body of the loop of [create_icns]. *)
Definition icns_step (temp_data : list byte) (row : Z * string) : result (list byte) :=
  let '(size, code) := row in
  png_data ← icns_png size;
  code_bytes ← encode_ascii code;
  length_field ← struct.pack_BE_I (Bytes.len png_data + 8);
  let element := code_bytes ++ length_field ++ png_data in
  Ok (temp_data ++ element).

(** [create_icns] up to the file write, with its table as a parameter. *)
Definition icns_file (rows : list (Z * string)) : result (list byte) :=
  let icns_data := Bytes.lit "icns" in
  temp_data ← for_each icns_step rows [];
  let total_size := Bytes.len temp_data + 8 in
  total_field ← struct.pack_BE_I total_size;
  Ok (icns_data ++ total_field ++ temp_data).

Definition create_icns_with (rows : list (Z * string)) (output_path : string) : IO () :=
  and_then (pure (icns_file rows)) (fun blob =>
  and_then (write_file output_path blob) (fun _ =>
  print ("✓ Created macOS icon: " +:+ output_path))).

Definition create_icns : string → IO () := create_icns_with icns_sizes.

(** The bytes of the flat PNG. *)
Definition png_file (size : Z) : result (list byte) :=
  img ← create_base_icon size;
  PIL.save_png img.

Definition create_png (output_path : string) (size : Z) : IO () :=
  and_then (pure (create_base_icon size)) (fun img =>
  and_then (save output_path (PIL.save_png img)) (fun _ =>
  print ("✓ Created PNG icon: " +:+ output_path))).

(** What the interpreter hands to the script: the command line and the
    absolute path of the script file. *)
Record Env : Type := mkEnv {
  argv : list string;
  script_abspath : string
}.

Definition get_output_directory (env : Env) : IO string :=
  let script_dir := os_path.dirname (script_abspath env) in
  let project_root := os_path.dirname script_dir in
  let output_dir := os_path.join project_root "assets" in
  and_then (makedirs output_dir) (fun _ => pure (Ok output_dir)).

Definition resolve_output_dir (env : Env) : IO string :=
  match argv env with
  | _ :: output_dir :: _ => and_then (makedirs output_dir) (fun _ => pure (Ok output_dir))
  | _ => get_output_directory env
  end.

(** The [__main__] block. *)
Definition main (env : Env) : IO () :=
  and_then (resolve_output_dir env) (fun output_dir =>
  and_then (print "🐍 Creating BlackMamba Studio Icons...") (fun _ =>
  and_then (print (str_repeat "=" 50)) (fun _ =>
  and_then (create_ico (os_path.join output_dir "icon.ico")) (fun _ =>
  and_then (create_icns (os_path.join output_dir "icon.icns")) (fun _ =>
  and_then (create_png (os_path.join output_dir "icon.png") DEFAULT_ICON_SIZE) (fun _ =>
  and_then (print (str_repeat "=" 50)) (fun _ =>
  and_then (print "✅ All icons created successfully!") (fun _ =>
  print ("📁 Location: " +:+ output_dir))))))))).

End Script.

(** ** The Apple container, read back *)

Module Icns.

Definition magic (blob : list byte) : list byte := Bytes.slice 0 4 blob.

Definition total_length (blob : list byte) : Z :=
  Bytes.be_decode (Bytes.slice 4 8 blob).

(** The 4-byte big-endian numeral. *)
Definition be32 (n : Z) : list byte :=
  [Bytes.of_Z (n ≫ 24); Bytes.of_Z (n ≫ 16); Bytes.of_Z (n ≫ 8); Bytes.of_Z n].

(** The layout as the format description words it: per element the code,
    the length field (8 plus the payload length) and the payload; in
    front, the magic tag and the length of everything, header included. *)
Definition element_layout (code payload : list byte) : list byte :=
  code ++ be32 (8 + Bytes.len payload) ++ payload.

Definition elements_layout (elements : list (list byte * list byte)) : list byte :=
  concat (map (fun e => element_layout e.1 e.2) elements).

Definition blob_layout (elements : list (list byte * list byte)) : list byte :=
  let body := elements_layout elements in
  Bytes.lit "icns" ++ be32 (8 + Bytes.len body) ++ body.

(** The sum of the invariant: 8 + Σ (8 + payload length). *)
Definition declared_sum (payloads : list (list byte)) : Z :=
  8 + foldr (fun p acc => (8 + Bytes.len p) + acc) 0 payloads.

End Icns.

(** A concrete set of externals, for running the definitions: a PNG
    stand-in that writes the signature and the two dimensions, bounding
    boxes for coverage, and a cube by two multiplications. *)
Definition sample_externals : Externals := {|
  png_encode img :=
    Bytes.lit "PNG" ++ [Bytes.of_Z img.(im_size).1; Bytes.of_Z img.(im_size).2];
  covers op x y :=
    match op with
    | Ellipse (x0, y0, x1, y1) _ | Rectangle (x0, y0, x1, y1) _ =>
        (x0 <=? x) && (x <=? x1) && (y0 <=? y) && (y <=? y1)
    | Line _ _ _ _ => false
    end;
  thumbnail img size := mkImage (im_mode img) size (im_color img) (im_ops img);
  float_pow x y := (x * x * x)%float
|}.

(** A system that accepts every call, and counts them. *)
Definition sample_system : System := {|
  State := nat;
  respond _ n := (None, S n)
|}.

(** A system that answers the calls it is told to refuse with OSError
    and accepts the others. *)
Definition refusing_system (refused : Call → bool) : System := {|
  State := nat;
  respond c n := (if refused c then Some OSError else None, S n)
|}.

Definition sample_env : Env := mkEnv ["create_icons.py"; "out"] "/repo/scripts/create_icons.py".
Definition empty_world `{System} (s : State) : World := mkWorld s [].

(** ** Vocabulary of the statements *)

(** An 8-bit channel, and a colour with its four channels in range. *)
Definition valid_channel (c : Z) : Prop := 0 ≤ c ≤ 255.

Definition valid_rgba (c : RGBA) : Prop :=
  valid_channel c.1.1.1 ∧ valid_channel c.1.1.2 ∧ valid_channel c.1.2 ∧ valid_channel c.2.

(** A size × size RGBA image all of whose colours are 8-bit. *)
Definition bitmap_of_size (size : Z) (img : Image) : Prop :=
  im_mode img = "RGBA" ∧ im_size img = (size, size) ∧ valid_rgba (im_color img)
  ∧ Forall (fun op => valid_rgba (op_fill op)) (im_ops img).

(** The bounding box and the ellipse of turn [i] of the gradient loop. *)
Definition gradient_box (center i : Z) : Box :=
  let radius := gradient_radius center i in
  (center - radius, center - radius, center + radius, center + radius).

Definition gradient_ellipse (center i : Z) : DrawOp :=
  Ellipse (gradient_box center i) (with_alpha BRAND_COLOR (gradient_alpha i)).

(** A box with pixels in it along both axes. *)
Definition non_degenerate (xy : Box) : Prop :=
  let '(x0, y0, x1, y1) := xy in x0 < x1 ∧ y0 < y1.

(** The element of a table row: its code in ASCII and its PNG payload. *)
Definition row_element `{Externals} (row : Z * string) (e : list byte * list byte) : Prop :=
  encode_ascii row.2 = Ok e.1 ∧ icns_png row.1 = Ok e.2.


(** The bytes a row adds to the container: code, length field, payload. *)
Definition row_bytes `{Externals} (row : Z * string) : Z :=
  match icns_png row.1 with
  | Ok png_data => Z.of_nat (String.length row.2) + 4 + Bytes.len png_data
  | Err _ => 0
  end.

Definition rows_bytes `{Externals} (rows : list (Z * string)) : Z :=
  foldr (fun row acc => row_bytes row + acc) 0 rows.


(** The containers of the table and of a one-row table under the sample
    externals. *)
Definition sample_icns_blob : list byte :=
  Eval vm_compute in
    match @icns_file sample_externals icns_sizes with Ok blob => blob | Err _ => [] end.

Definition sample_icns_single : list byte :=
  Eval vm_compute in
    match @icns_file sample_externals [(16, "ic04")] with Ok blob => blob | Err _ => [] end.

(** The directory a run writes to and the three files it writes. *)
Definition output_dir (env : Env) : string :=
  match argv env with
  | _ :: dir :: _ => dir
  | _ => os_path.join (os_path.dirname (os_path.dirname (script_abspath env))) "assets"
  end.

Definition ico_path (env : Env) : string := os_path.join (output_dir env) "icon.ico".
Definition icns_path (env : Env) : string := os_path.join (output_dir env) "icon.icns".
Definition png_path (env : Env) : string := os_path.join (output_dir env) "icon.png".

Definition output_paths (env : Env) : list string :=
  [ico_path env; icns_path env; png_path env].

(** The calls of a run that completes, in the order they are made. *)
Definition calls_of_run (env : Env) (ico icns png : list byte) : list Call :=
  [ Makedirs (output_dir env);
    PrintLine "🐍 Creating BlackMamba Studio Icons...";
    PrintLine "==================================================";
    Open (ico_path env); WriteBytes (ico_path env) ico;
    PrintLine ("✓ Created Windows icon: " +:+ ico_path env);
    Open (icns_path env); WriteBytes (icns_path env) icns;
    PrintLine ("✓ Created macOS icon: " +:+ icns_path env);
    Open (png_path env); WriteBytes (png_path env) png;
    PrintLine ("✓ Created PNG icon: " +:+ png_path env);
    PrintLine "==================================================";
    PrintLine "✅ All icons created successfully!";
    PrintLine ("📁 Location: " +:+ output_dir env) ].

(** The path point of index [i] with every operand converted. *)
Definition path_point `{Externals} (size center i : Z) : Point :=
  let t := PyFloat.true_div i 100 in
  ((PyFloat.nearest center + PyFloat.nearest size * 0.3 * (t - 0.5))%float,
   (PyFloat.nearest center
    + PyFloat.nearest size * 0.4 * float_pow (t - 0.5) (PyFloat.nearest 3)
      * PyFloat.nearest 8)%float).

(** ** Vocabulary of the further properties *)


Definition box_inside (inner outer : Box) : Prop :=
  let '(x0, y0, x1, y1) := inner in
  let '(X0, Y0, X1, Y1) := outer in
  X0 ≤ x0 ∧ Y0 ≤ y0 ∧ x1 ≤ X1 ∧ y1 ≤ Y1.







(** Reading an Apple container back, as a reader of the format does: the
    magic tag and the total length are checked, then each element gives
    its 4-byte code, its length field n and the n - 8 bytes that follow,
    and the next element starts n bytes after the start of this one. *)
#[global] Instance byte_eqdec : EqDecision byte := Byte.byte_eq_dec.

Fixpoint read_elements (fuel : nat) (bs : list byte) : option (list (list byte * list byte)) :=
  match bs, fuel with
  | [], _ => Some []
  | _, O => None
  | _, S fuel' =>
      let n := Bytes.be_decode (take 4 (drop 4 bs)) in
      if (n <? 8) || (Bytes.len bs <? n) then None
      else rest ← read_elements fuel' (drop (Z.to_nat n) bs);
           Some ((take 4 bs, take (Z.to_nat (n - 8)) (drop 8 bs)) :: rest)
  end.

Definition read_icns (blob : list byte) : option (list (list byte * list byte)) :=
  if bool_decide (Icns.magic blob = Bytes.lit "icns")
     && (Icns.total_length blob =? Bytes.len blob)
  then read_elements (length blob) (drop 8 blob)
  else None.

(** A row the Apple packer cannot serve: a negative size, or a code with a
    character outside ASCII. *)
Definition bad_row (row : Z * string) : Prop :=
  row.1 < 0 ∨ forallb is_ascii_char (list_ascii_of_string row.2) = false.

(** A path component: a name with no separator in it. *)
Definition no_sep (name : string) : Prop :=
  forallb (fun c => negb (os_path.is_sep c)) (list_ascii_of_string name) = true.

(** The sizes of a list in ascending order, each once. *)
Fixpoint insert_sorted (s : Z) (l : list Z) : list Z :=
  match l with
  | [] => [s]
  | x :: l' =>
      if s <? x then s :: l
      else if s =? x then l
      else x :: insert_sorted s l'
  end.

Definition sorted_distinct (sizes : list Z) : list Z := foldr insert_sorted [] sizes.

(** The sizes a Windows container keeps of a size list: those not above
    the first size of the list nor above 256, ascending, each once. *)
Definition kept_sizes (sizes : list Z) : list Z :=
  match sizes with
  | [] => []
  | first :: _ => filter (fun s => s ≤ first ∧ s ≤ 256) (sorted_distinct sizes)
  end.

(** The directory of payloads laid one after another from [offset] on. *)
Fixpoint directory_of (frames : list (Z * list byte)) (offset : Z) : list (Z * Z * Z * Z) :=
  match frames with
  | [] => []
  | (s, payload) :: frames' =>
      (s, s, Bytes.len payload, offset) :: directory_of frames' (offset + Bytes.len payload)
  end.

(** The sixteen bytes of a directory entry. *)
Definition entry_bytes (e : Z * Z * Z * Z) : list byte :=
  let '(width, height, bytes_len, offset) := e in
  Ico.o8 (if width <? 256 then width else 0) ++ Ico.o8 (if height <? 256 then height else 0)
  ++ Ico.o8 0 ++ ["000"]%byte ++ ["000"; "000"]%byte
  ++ [Bytes.of_Z 32; Bytes.of_Z (32 ≫ 8)]
  ++ [Bytes.of_Z bytes_len; Bytes.of_Z (bytes_len ≫ 8); Bytes.of_Z (bytes_len ≫ 16);
      Bytes.of_Z (bytes_len ≫ 24)]
  ++ [Bytes.of_Z offset; Bytes.of_Z (offset ≫ 8); Bytes.of_Z (offset ≫ 16);
      Bytes.of_Z (offset ≫ 24)].

(** A Windows container under the sample externals, from a size list
    with a repeated size and a size above the first. *)
Definition sample_ico_blob : list byte :=
  Eval vm_compute in
    match @ico_file sample_externals [64; 16; 32; 16; 128] with
    | Ok blob => blob
    | Err _ => []
    end.

(** * Properties *)

(** ** Results and loops *)

Lemma bind_Ok {A B} (a : A) (f : A → result B) : (Ok a ≫= f) = f a.
Proof. reflexivity. Qed.

Lemma for_each_total {A S} (step : S → A → result S) (g : S → A → S) (l : list A) :
  (∀ s x, x ∈ l → step s x = Ok (g s x)) →
  ∀ s, for_each step l s = Ok (fold_left g l s).
Proof.
  induction l as [|x l IH]; intros Hstep s; simpl; [done|].
  rewrite Hstep by left. simpl. apply IH. intros s' y Hy. apply Hstep. by right.
Qed.

Lemma range_elem (n i : Z) : i ∈ range n ↔ 0 ≤ i < n.
Proof. unfold range. rewrite elem_of_seqZ. lia. Qed.

Lemma list_comprehension_map {A B} (f : A → result B) (g : A → B) (l : list A) :
  (∀ x, x ∈ l → f x = Ok (g x)) → list_comprehension f l = Ok (map g l).
Proof.
  induction l as [|x l IH]; intros Hf; simpl; [done|].
  rewrite Hf by left. rewrite bind_Ok, IH; [done|]. intros y Hy. apply Hf. by right.
Qed.

Lemma list_comprehension_Ok {A B} (f : A → result B) (l : list A) (ys : list B) :
  list_comprehension f l = Ok ys ↔ Forall2 (fun x y => f x = Ok y) l ys.
Proof.
  revert ys. induction l as [|x l IH]; intros ys; simpl.
  - split; [intros [= <-]; constructor | by inversion 1].
  - destruct (f x) as [y|e] eqn:Hx; simpl.
    + destruct (list_comprehension f l) as [ys'|e] eqn:Hl; simpl.
      * split.
        -- intros [= <-]. constructor; [done | by apply IH].
        -- inversion 1 as [|? y' ? ys'' Hy Hall]; subst.
           apply IH in Hall. congruence.
      * split; [done|]. inversion 1 as [|? y' ? ys'' Hy Hall]; subst.
        apply IH in Hall. congruence.
    + split; [done|]. inversion 1; congruence.
Qed.

(** ** Conversions to float *)

Lemma max_int_large : 2 ^ 64 ≤ PyFloat.max_int.
Proof. vm_compute. discriminate. Qed.

Lemma of_int_Ok (n : Z) :
  Z.abs n ≤ PyFloat.max_int → PyFloat.of_int n = Ok (PyFloat.nearest n).
Proof.
  intros Hn. unfold PyFloat.of_int. destruct (Z.leb_spec (Z.abs n) PyFloat.max_int); [done | lia].
Qed.

Lemma of_int_Err (n : Z) :
  PyFloat.max_int < Z.abs n → PyFloat.of_int n = Err OverflowError.
Proof.
  intros Hn. unfold PyFloat.of_int. destruct (Z.leb_spec (Z.abs n) PyFloat.max_int); [lia | done].
Qed.

(** The bound is where the rounding leaves binary64: the largest int
    below it rounds to the largest float, the bound itself to infinity. *)
Lemma nearest_max_int :
  Prim2SF (PyFloat.nearest PyFloat.max_int) = S754_finite false (2 ^ 53 - 1) 971
  ∧ Prim2SF (PyFloat.nearest (PyFloat.max_int + 1)) = S754_infinity false.
Proof. split; vm_compute; reflexivity. Qed.

(** ** The rasterizer *)

Lemma draw_ops (img : Image) (ops : list DrawOp) :
  im_ops (fold_left PIL.draw ops img) = im_ops img ++ ops.
Proof.
  revert img. induction ops as [|op ops IH]; intros img; simpl.
  - by rewrite app_nil_r.
  - rewrite IH. simpl. by rewrite <- app_assoc.
Qed.

Lemma draw_bitmap (size : Z) (img : Image) (op : DrawOp) :
  bitmap_of_size size img → valid_rgba (op_fill op) →
  bitmap_of_size size (PIL.draw img op).
Proof.
  intros (Hm & Hs & Hc & Hops) Hop. repeat split; simpl; try done; try apply Hc.
  apply Forall_app. split; [done | by constructor].
Qed.

Lemma gradient_radius_ge_1 (center i : Z) : 1 ≤ gradient_radius center i.
Proof. unfold gradient_radius. lia. Qed.

Lemma gradient_box_ordered (center i : Z) : PIL.box_ordered (gradient_box center i) = true.
Proof.
  unfold gradient_box, PIL.box_ordered. pose proof (gradient_radius_ge_1 center i).
  cbv zeta. apply andb_true_iff. split; apply Z.leb_le; lia.
Qed.

Lemma gradient_step_draws (center : Z) (img : Image) (i : Z) :
  gradient_step center img i = Ok (PIL.draw img (gradient_ellipse center i)).
Proof.
  unfold gradient_step. cbv zeta.
  pose proof (gradient_radius_ge_1 center i) as Hr.
  destruct (Z.ltb_spec 0 (gradient_radius center i)) as [_|Hle]; [|lia].
  unfold PIL.ellipse. fold (gradient_box center i).
  by rewrite gradient_box_ordered.
Qed.

Lemma gradient_loop_draws (center : Z) (img : Image) :
  gradient_loop center img
  = Ok (fold_left PIL.draw (map (gradient_ellipse center) (range GRADIENT_ITERATIONS)) img).
Proof.
  unfold gradient_loop. generalize (range GRADIENT_ITERATIONS). intros l.
  rewrite (for_each_total _ (fun im i => PIL.draw im (gradient_ellipse center i))).
  - f_equal. revert img.
    induction l as [|x l IH]; intros img; simpl; [done | apply IH].
  - intros s x _. apply gradient_step_draws.
Qed.

Lemma gradient_alpha_values :
  map gradient_alpha (range GRADIENT_ITERATIONS)
  = [255; 229; 204; 178; 153; 127; 102; 76; 50; 25].
Proof. vm_compute. reflexivity. Qed.

Lemma gradient_alpha_valid (i : Z) :
  0 ≤ i < GRADIENT_ITERATIONS → valid_channel (gradient_alpha i).
Proof.
  intros Hi. apply range_elem in Hi.
  assert (Hall : Forall valid_channel (map gradient_alpha (range GRADIENT_ITERATIONS))).
  { rewrite gradient_alpha_values. unfold valid_channel. repeat constructor; lia. }
  rewrite Forall_forall in Hall. apply Hall. by apply list_elem_of_fmap_2.
Qed.

Lemma gradient_ellipse_valid (center i : Z) :
  0 ≤ i < GRADIENT_ITERATIONS → valid_rgba (op_fill (gradient_ellipse center i)).
Proof.
  intros Hi. pose proof (gradient_alpha_valid i Hi).
  unfold valid_rgba, valid_channel in *. simpl. lia.
Qed.

Lemma draws_bitmap (size : Z) (ops : list DrawOp) (img : Image) :
  bitmap_of_size size img → Forall (fun op => valid_rgba (op_fill op)) ops →
  bitmap_of_size size (fold_left PIL.draw ops img).
Proof.
  revert img. induction ops as [|op ops IH]; intros img Himg Hops; simpl; [done|].
  inversion Hops; subst. apply IH; [by apply draw_bitmap | done].
Qed.

Lemma gradient_loop_bitmap (size center : Z) (img : Image) :
  bitmap_of_size size img →
  ∃ img', gradient_loop center img = Ok img' ∧ bitmap_of_size size img'.
Proof.
  intros Himg. eexists. split; [apply gradient_loop_draws|].
  apply draws_bitmap; [done|].
  apply Forall_forall. intros op Hop.
  apply list_elem_of_fmap in Hop as (i & -> & Hi).
  apply gradient_ellipse_valid. by apply range_elem.
Qed.

Lemma draw_snake_bitmap `{Externals} (size : Z) (points : list Point) (fill : RGBA)
    (width : Z) (img : Image) :
  valid_rgba fill → bitmap_of_size size img →
  bitmap_of_size size (draw_snake points fill width img).
Proof.
  intros Hfill. unfold draw_snake.
  generalize (range (Z.of_nat (length points) - 1)). intros l. revert img.
  induction l as [|i l IH]; intros img Himg; simpl; [done|].
  apply IH. destruct (points !! Z.to_nat i); [|done].
  destruct (points !! Z.to_nat (i + 1)); [|done].
  by apply draw_bitmap.
Qed.

Lemma ellipse_bitmap (size : Z) (img : Image) (xy : Box) (fill : RGBA) :
  bitmap_of_size size img → valid_rgba fill → PIL.box_ordered xy = true →
  ∃ img', PIL.ellipse img xy fill = Ok img' ∧ bitmap_of_size size img'.
Proof.
  intros Himg Hfill Hxy. unfold PIL.ellipse. rewrite Hxy.
  eexists; split; [done | by apply draw_bitmap].
Qed.

Lemma rectangle_bitmap (size : Z) (img : Image) (xy : Box) (fill : RGBA) :
  bitmap_of_size size img → valid_rgba fill → PIL.box_ordered xy = true →
  ∃ img', PIL.rectangle img xy fill = Ok img' ∧ bitmap_of_size size img'.
Proof.
  intros Himg Hfill Hxy. unfold PIL.rectangle. rewrite Hxy.
  eexists; split; [done | by apply draw_bitmap].
Qed.

Lemma new_bitmap (size : Z) :
  0 ≤ size →
  PIL.new "RGBA" (size, size) (0, 0, 0, 0) = Ok (mkImage "RGBA" (size, size) (0, 0, 0, 0) [])
  ∧ bitmap_of_size size (mkImage "RGBA" (size, size) (0, 0, 0, 0) []).
Proof.
  intros Hsize. split.
  - unfold PIL.new. simpl. destruct (Z.ltb_spec size 0); [lia | done].
  - unfold bitmap_of_size, valid_rgba, valid_channel. simpl.
    repeat split; try lia. constructor.
Qed.

Lemma box_ordered_intro (x0 y0 x1 y1 : Z) :
  x0 ≤ x1 → y0 ≤ y1 → PIL.box_ordered (x0, y0, x1, y1) = true.
Proof. intros. unfold PIL.box_ordered. apply andb_true_iff. split; apply Z.leb_le; lia. Qed.

Lemma white_valid : valid_rgba (255, 255, 255, 255).
Proof. unfold valid_rgba, valid_channel. simpl. lia. Qed.

Lemma eye_valid : valid_rgba (255, 0, 100, 255).
Proof. unfold valid_rgba, valid_channel. simpl. lia. Qed.

Lemma snake_point_Ok `{Externals} (size center i : Z) :
  Z.abs size ≤ PyFloat.max_int → Z.abs center ≤ PyFloat.max_int →
  snake_point size center i = Ok (path_point size center i).
Proof.
  intros Hsize Hcenter. unfold snake_point. cbv zeta.
  by rewrite !(of_int_Ok size), !(of_int_Ok center), !bind_Ok by done.
Qed.

Lemma snake_points_Ok `{Externals} (size center : Z) :
  Z.abs size ≤ PyFloat.max_int → Z.abs center ≤ PyFloat.max_int →
  snake_points size center = Ok (map (path_point size center) (range 100)).
Proof.
  intros Hsize Hcenter. apply list_comprehension_map. intros i _. by apply snake_point_Ok.
Qed.

Lemma snake_points_Err `{Externals} (size center : Z) :
  PyFloat.max_int < Z.abs size → snake_points size center = Err OverflowError.
Proof.
  intros Hsize. unfold snake_points.
  change (range 100) with (0 :: seqZ 1 99). cbn [list_comprehension].
  unfold snake_point. cbv zeta. by rewrite (of_int_Err size).
Qed.

(** The rasterizer returns for every size from 0 up to the largest int
    that converts to a float, with a bitmap of that size whose colours are
    all 8-bit. *)
Lemma create_base_icon_total `{Externals} (size : Z) :
  0 ≤ size ≤ PyFloat.max_int →
  ∃ img, create_base_icon size = Ok img ∧ bitmap_of_size size img.
Proof.
  intros [Hsize Hmax]. unfold create_base_icon.
  destruct (new_bitmap size Hsize) as [-> Himg0]. simpl.
  destruct (gradient_loop_bitmap size (size / 2) _ Himg0) as (img1 & -> & Himg1). simpl.
  destruct (Z.leb_spec 32 size) as [Hbig|Hsmall].
  - assert (Heye : 1 ≤ Z.max 1 (size / 20)) by lia.
    destruct (Z.ltb_spec 0 (Z.max 1 (size / 20))) as [_|?]; [|lia].
    assert (Hhalf : 0 ≤ size / 2 ≤ size).
    { split; [apply Z.div_pos; lia | apply Z.div_le_upper_bound; lia]. }
    rewrite (snake_points_Ok size (size / 2)) by (rewrite Z.abs_eq; lia).
    rewrite bind_Ok.
    pose proof (draw_snake_bitmap size (map (path_point size (size / 2)) (range 100)) _
                  (Z.max 2 (size / 8)) img1 white_valid Himg1) as Himg2.
    cbv zeta. unfold PIL.ellipse. rewrite !box_ordered_intro by lia.
    rewrite bind_Ok. eexists. split; [done|].
    apply draw_bitmap; [apply draw_bitmap|]; done || apply eye_valid.
  - apply rectangle_bitmap; [done | apply white_valid |].
    apply box_ordered_intro; pose proof (Z.div_pos size 4);
      assert (4 * (size / 4) ≤ size) by (apply Z.mul_div_le; lia); lia.
Qed.

Lemma create_base_icon_negative `{Externals} (size : Z) :
  size < 0 → create_base_icon size = Err ValueError.
Proof.
  intros Hsize. unfold create_base_icon, PIL.new. simpl.
  destruct (Z.ltb_spec size 0); [done | lia].
Qed.

(** From the first int that does not convert on, the first point of the
    path raises. *)
Lemma create_base_icon_overflow `{Externals} (size : Z) :
  PyFloat.max_int < size → create_base_icon size = Err OverflowError.
Proof.
  intros Hsize. pose proof max_int_large as Hmax. unfold create_base_icon.
  assert (Hpos : 0 ≤ size) by lia.
  destruct (new_bitmap size Hpos) as [-> _]. rewrite bind_Ok. cbv zeta.
  rewrite gradient_loop_draws, bind_Ok.
  destruct (Z.leb_spec 32 size) as [_|?]; [|lia].
  rewrite snake_points_Err by lia. reflexivity.
Qed.

(** When the rasterizer returns, its size is not negative and what it
    returns is a bitmap of that size. *)
Lemma create_base_icon_Ok `{Externals} (size : Z) (img : Image) :
  create_base_icon size = Ok img → 0 ≤ size ≤ PyFloat.max_int ∧ bitmap_of_size size img.
Proof.
  intros Hrun.
  destruct (Z.lt_ge_cases size 0) as [Hneg|Hpos];
    [by rewrite create_base_icon_negative in Hrun|].
  destruct (Z.le_gt_cases size PyFloat.max_int) as [Hle|Hgt];
    [|by rewrite create_base_icon_overflow in Hrun].
  destruct (create_base_icon_total size (conj Hpos Hle)) as (img' & Hrun' & Himg).
  split; [done|]. congruence.
Qed.





(** C10: in the gradient loop of a positive size every radius is at least
    1, so the guard [radius > 0] holds at each of the GRADIENT_ITERATIONS
    turns, the loop draws exactly that many ellipses, and each ellipse gets
    a box with x0 < x1 and y0 < y1. *)
Theorem gradient_loop_draws_ten_ellipses (size : Z) (img : Image) :
  0 < size →
  (∀ i, 0 ≤ i < GRADIENT_ITERATIONS →
        1 ≤ gradient_radius (size / 2) i
        ∧ (0 <? gradient_radius (size / 2) i) = true
        ∧ gradient_step (size / 2) img i = Ok (PIL.draw img (gradient_ellipse (size / 2) i))
        ∧ non_degenerate (gradient_box (size / 2) i))
  ∧ ∃ img', gradient_loop (size / 2) img = Ok img'
            ∧ im_ops img' = im_ops img ++ map (gradient_ellipse (size / 2)) (range GRADIENT_ITERATIONS)
            ∧ length (im_ops img') = (length (im_ops img) + Z.to_nat GRADIENT_ITERATIONS)%nat.
Proof.
  intros _. split.
  - intros i _. pose proof (gradient_radius_ge_1 (size / 2) i) as Hr.
    split; [done|]. split; [apply Z.ltb_lt; lia|]. split; [apply gradient_step_draws|].
    unfold non_degenerate, gradient_box. cbv zeta. lia.
  - eexists. split; [apply gradient_loop_draws|].
    rewrite draw_ops. split; [done|].
    rewrite length_app, length_map. unfold range. by rewrite length_seqZ.
Qed.

(** The statement at size 16, on a fresh 16 × 16 image. *)
Lemma gradient_loop_draws_ten_ellipses_at_16 :
  0 < 16
  ∧ (∀ i, 0 ≤ i < GRADIENT_ITERATIONS →
          1 ≤ gradient_radius (16 / 2) i
          ∧ (0 <? gradient_radius (16 / 2) i) = true
          ∧ gradient_step (16 / 2) (mkImage "RGBA" (16, 16) (0, 0, 0, 0) []) i
            = Ok (PIL.draw (mkImage "RGBA" (16, 16) (0, 0, 0, 0) []) (gradient_ellipse (16 / 2) i))
          ∧ non_degenerate (gradient_box (16 / 2) i))
    ∧ ∃ img', gradient_loop (16 / 2) (mkImage "RGBA" (16, 16) (0, 0, 0, 0) []) = Ok img'
              ∧ im_ops img' = [] ++ map (gradient_ellipse (16 / 2)) (range GRADIENT_ITERATIONS)
              ∧ length (im_ops img') = (0 + Z.to_nat GRADIENT_ITERATIONS)%nat.
Proof.
  split; [lia|].
  apply (gradient_loop_draws_ten_ellipses 16 (mkImage "RGBA" (16, 16) (0, 0, 0, 0) [])). lia.
Defined.

(** ** Bytes and the numerals of [struct.pack] *)

Lemma to_Z_of_Z (z : Z) : Bytes.to_Z (Bytes.of_Z z) = z mod 256.
Proof.
  unfold Bytes.to_Z, Bytes.of_Z.
  assert (Hlt : 0 ≤ z mod 256 < 256) by (apply Z.mod_pos_bound; lia).
  destruct (Byte.of_N (Z.to_N (z mod 256))) as [b|] eqn:Hb; simpl.
  - apply Byte.to_of_N in Hb. rewrite Hb. lia.
  - apply Byte.of_N_None_iff in Hb. lia.
Qed.

Lemma be_decode_be32 (n : Z) : 0 ≤ n < 2 ^ 32 → Bytes.be_decode (Icns.be32 n) = n.
Proof.
  intros Hn. unfold Bytes.be_decode, Icns.be32. simpl fold_left.
  rewrite !to_Z_of_Z, !Z.shiftr_div_pow2 by lia.
  change (2 ^ 32) with 4294967296 in Hn.
  change (2 ^ 24) with 16777216. change (2 ^ 16) with 65536. change (2 ^ 8) with 256.
  Z.div_mod_to_equations. lia.
Qed.

Lemma le_decode_le32 (n : Z) :
  0 ≤ n < 2 ^ 32 →
  Bytes.le_decode [Bytes.of_Z n; Bytes.of_Z (n ≫ 8); Bytes.of_Z (n ≫ 16); Bytes.of_Z (n ≫ 24)] = n.
Proof.
  intros Hn. unfold Bytes.le_decode. simpl fold_right.
  rewrite !to_Z_of_Z, !Z.shiftr_div_pow2 by lia.
  change (2 ^ 32) with 4294967296 in Hn.
  change (2 ^ 24) with 16777216. change (2 ^ 16) with 65536. change (2 ^ 8) with 256.
  Z.div_mod_to_equations. lia.
Qed.

Lemma in_range_spec (bits n : Z) : struct.in_range bits n = true ↔ 0 ≤ n < 2 ^ bits.
Proof. unfold struct.in_range. rewrite andb_true_iff, Z.leb_le, Z.ltb_lt. done. Qed.

Lemma pack_BE_I_Ok (n : Z) (bs : list byte) :
  struct.pack_BE_I n = Ok bs ↔ 0 ≤ n < 2 ^ 32 ∧ bs = Icns.be32 n.
Proof.
  unfold struct.pack_BE_I.
  destruct (struct.in_range 32 n) eqn:Hr.
  - apply in_range_spec in Hr. split; [intros [= <-]; done | intros [_ ->]; done].
  - split; [done|]. intros [Hn _]. apply in_range_spec in Hn. congruence.
Qed.

Lemma pack_LE_I_Ok (n : Z) (bs : list byte) :
  struct.pack_LE_I n = Ok bs ↔
  0 ≤ n < 2 ^ 32
  ∧ bs = [Bytes.of_Z n; Bytes.of_Z (n ≫ 8); Bytes.of_Z (n ≫ 16); Bytes.of_Z (n ≫ 24)].
Proof.
  unfold struct.pack_LE_I.
  destruct (struct.in_range 32 n) eqn:Hr.
  - apply in_range_spec in Hr. split; [intros [= <-]; done | intros [_ ->]; done].
  - split; [done|]. intros [Hn _]. apply in_range_spec in Hn. congruence.
Qed.

Lemma pack_LE_I_Err (n : Z) : ¬ n < 2 ^ 32 → struct.pack_LE_I n = Err StructError.
Proof.
  intros Hn. unfold struct.pack_LE_I.
  destruct (struct.in_range 32 n) eqn:Hr; [|done]. apply in_range_spec in Hr. lia.
Qed.

Lemma length_be32 (n : Z) : length (Icns.be32 n) = 4%nat.
Proof. reflexivity. Qed.

Lemma length_list_byte_of_string (s : string) :
  length (list_byte_of_string s) = String.length s.
Proof.
  unfold list_byte_of_string. rewrite length_map.
  induction s as [|c s IH]; simpl; [done | by rewrite IH].
Qed.


Lemma encode_ascii_Ok (s : string) (bs : list byte) :
  encode_ascii s = Ok bs ↔
  forallb is_ascii_char (list_ascii_of_string s) = true ∧ bs = list_byte_of_string s.
Proof.
  unfold encode_ascii. destruct (forallb _ _).
  - split; [intros [= <-]; done | intros [_ ->]; done].
  - split; [done | intros [? _]; done].
Qed.

Lemma len_app (a b : list byte) : Bytes.len (a ++ b) = Bytes.len a + Bytes.len b.
Proof. unfold Bytes.len. rewrite length_app. lia. Qed.

Lemma len_nonneg (a : list byte) : 0 ≤ Bytes.len a.
Proof. unfold Bytes.len. lia. Qed.

(** ** The Apple container *)

Section IcnsFacts.
Context `{Externals}.


Lemma icns_step_Ok (temp_data out : list byte) (row : Z * string) :
  icns_step temp_data row = Ok out ↔
  ∃ e, row_element row e ∧ 8 + Bytes.len e.2 < 2 ^ 32
       ∧ out = temp_data ++ Icns.element_layout e.1 e.2.
Proof.
  destruct row as [size code]. unfold icns_step, row_element. simpl.
  destruct (icns_png size) as [png_data|err]; simpl.
  2: { split; [done | intros ([? ?] & [_ ?] & _); done]. }
  destruct (encode_ascii code) as [code_bytes|err]; simpl.
  2: { split; [done | intros ([? ?] & [? _] & _); done]. }
  destruct (struct.pack_BE_I (Bytes.len png_data + 8)) as [field|err] eqn:Hpack; simpl.
  - apply pack_BE_I_Ok in Hpack as [Hlen ->]. pose proof (len_nonneg png_data).
    split.
    + intros [= <-]. exists (code_bytes, png_data). simpl.
      split; [done|]. split; [lia|].
      unfold Icns.element_layout. by rewrite (Z.add_comm 8).
    + intros ([c p] & [[= <-] [= <-]] & _ & ->).
      unfold Icns.element_layout. by rewrite (Z.add_comm 8).
  - split; [done|]. intros ([c p] & [[= <-] [= <-]] & Hlen & _). simpl in Hlen.
    pose proof (len_nonneg png_data).
    assert (Hok : struct.pack_BE_I (Bytes.len png_data + 8)
                  = Ok (Icns.be32 (Bytes.len png_data + 8))).
    { apply pack_BE_I_Ok. split; [lia | done]. }
    congruence.
Qed.

Lemma icns_loop_Ok (rows : list (Z * string)) (temp_data out : list byte) :
  for_each icns_step rows temp_data = Ok out ↔
  ∃ elements, Forall2 row_element rows elements
              ∧ Forall (fun e => 8 + Bytes.len e.2 < 2 ^ 32) elements
              ∧ out = temp_data ++ Icns.elements_layout elements.
Proof.
  revert temp_data. induction rows as [|row rows IH]; intros temp_data; simpl.
  - split.
    + intros [= <-]. exists []. split; [constructor|]. split; [constructor|].
      unfold Icns.elements_layout. simpl. by rewrite app_nil_r.
    + intros (elements & Hall & _ & ->). inversion Hall; subst.
      unfold Icns.elements_layout. simpl. by rewrite app_nil_r.
  - destruct (icns_step temp_data row) as [temp'|err] eqn:Hstep; simpl.
    + apply icns_step_Ok in Hstep as (e & He & Hlen & ->). rewrite IH. split.
      * intros (elements & Hall & Hlens & ->). exists (e :: elements).
        split; [by constructor|]. split; [by constructor|].
        unfold Icns.elements_layout. simpl. by rewrite app_assoc.
      * intros (elements & Hall & Hlens & ->).
        inversion Hall as [|? e' ? elements' He' Hall']; subst.
        inversion Hlens; subst. exists elements'. split; [done|]. split; [done|].
        destruct He as [He1 He2], He' as [He1' He2'].
        assert (e' = e) as -> by (destruct e, e'; simpl in *; congruence).
        unfold Icns.elements_layout. simpl. by rewrite app_assoc.
    + split; [done|]. intros (elements & Hall & Hlens & _).
      inversion Hall as [|? e ? elements' He Hall']; subst. inversion Hlens; subst.
      assert (Hgo : icns_step temp_data row
                    = Ok (temp_data ++ Icns.element_layout e.1 e.2)).
      { apply icns_step_Ok. by exists e. }
      congruence.
Qed.

Lemma icns_file_Ok (rows : list (Z * string)) (blob : list byte) :
  icns_file rows = Ok blob ↔
  ∃ elements, Forall2 row_element rows elements
              ∧ Forall (fun e => 8 + Bytes.len e.2 < 2 ^ 32) elements
              ∧ 8 + Bytes.len (Icns.elements_layout elements) < 2 ^ 32
              ∧ blob = Icns.blob_layout elements.
Proof.
  unfold icns_file. cbv zeta.
  destruct (for_each icns_step rows []) as [temp_data|err] eqn:Hloop; simpl.
  - apply icns_loop_Ok in Hloop as (elements & Hall & Hlens & ->). simpl.
    pose proof (len_nonneg (Icns.elements_layout elements)).
    assert (Huniq : ∀ elements', Forall2 row_element rows elements' → elements' = elements).
    { clear -Hall. revert elements Hall. induction rows as [|row rows IH];
        intros elements Hall elements' Hall'; inversion Hall; inversion Hall'; subst; [done|].
      f_equal; [|by apply IH].
      repeat match goal with Hre : row_element _ _ |- _ => destruct Hre end.
      repeat match goal with p : (list byte * list byte)%type |- _ => destruct p end.
      simpl in *. congruence. }
    destruct (struct.pack_BE_I _) as [field|err] eqn:Hpack; simpl.
    + apply pack_BE_I_Ok in Hpack as [Htot ->]. split.
      * intros [= <-]. exists elements. split; [done|]. split; [done|]. split; [lia|].
        unfold Icns.blob_layout. by rewrite (Z.add_comm 8).
      * intros (elements' & Hall' & _ & _ & ->). rewrite (Huniq _ Hall').
        unfold Icns.blob_layout. by rewrite (Z.add_comm 8).
    + split; [done|]. intros (elements' & Hall' & _ & Htot & _).
      rewrite (Huniq _ Hall') in Htot.
      assert (Hok : struct.pack_BE_I (Bytes.len (Icns.elements_layout elements) + 8)
                    = Ok (Icns.be32 (Bytes.len (Icns.elements_layout elements) + 8))).
      { apply pack_BE_I_Ok. split; [lia | done]. }
      congruence.
  - split; [done|]. intros (elements & Hall & Hlens & _ & _).
    assert (Hgo : for_each icns_step rows [] = Ok ([] ++ Icns.elements_layout elements)).
    { apply icns_loop_Ok. by exists elements. }
    congruence.
Qed.

End IcnsFacts.

Section IcnsLayout.
Context `{Externals}.

Lemma len_element_layout (code payload : list byte) :
  Bytes.len (Icns.element_layout code payload) = Bytes.len code + 4 + Bytes.len payload.
Proof. unfold Icns.element_layout. rewrite !len_app. unfold Bytes.len at 2. simpl. lia. Qed.

Lemma len_elements_layout (elements : list (list byte * list byte)) :
  Bytes.len (Icns.elements_layout elements)
  = foldr (fun e acc => (Bytes.len e.1 + 4 + Bytes.len e.2) + acc) 0 elements.
Proof.
  unfold Icns.elements_layout. induction elements as [|e elements IH]; simpl; [done|].
  by rewrite len_app, len_element_layout, IH.
Qed.

Lemma len_blob_layout (elements : list (list byte * list byte)) :
  Bytes.len (Icns.blob_layout elements) = 8 + Bytes.len (Icns.elements_layout elements).
Proof.
  unfold Icns.blob_layout. cbv zeta. rewrite !len_app. unfold Bytes.len at 1 2. simpl. lia.
Qed.

Lemma magic_blob_layout (elements : list (list byte * list byte)) :
  Icns.magic (Icns.blob_layout elements) = Bytes.lit "icns".
Proof. reflexivity. Qed.

Lemma total_length_blob_layout (elements : list (list byte * list byte)) :
  8 + Bytes.len (Icns.elements_layout elements) < 2 ^ 32 →
  Icns.total_length (Icns.blob_layout elements) = Bytes.len (Icns.blob_layout elements).
Proof.
  intros Hlen. rewrite len_blob_layout.
  pose proof (len_nonneg (Icns.elements_layout elements)).
  change (Icns.total_length (Icns.blob_layout elements))
    with (Bytes.be_decode (Icns.be32 (8 + Bytes.len (Icns.elements_layout elements)))).
  apply be_decode_be32. lia.
Qed.

Lemma rows_bytes_elements (rows : list (Z * string)) (elements : list (list byte * list byte)) :
  Forall2 row_element rows elements →
  rows_bytes rows = Bytes.len (Icns.elements_layout elements).
Proof.
  rewrite len_elements_layout. unfold rows_bytes.
  induction 1 as [|row e rows elements [Hcode Hpng] _ IH]; simpl; [done|].
  rewrite IH. f_equal. unfold row_bytes. rewrite Hpng.
  apply encode_ascii_Ok in Hcode as [_ ->].
  unfold Bytes.len at 2. by rewrite length_list_byte_of_string.
Qed.

Lemma declared_sum_elements (rows : list (Z * string)) (elements : list (list byte * list byte)) :
  Forall2 row_element rows elements →
  Forall (fun row => String.length row.2 = 4%nat) rows →
  Icns.declared_sum (map snd elements) = 8 + Bytes.len (Icns.elements_layout elements).
Proof.
  rewrite len_elements_layout. unfold Icns.declared_sum. intros Hall Hcodes. f_equal.
  induction Hall as [|row e rows elements [Hcode _] _ IH]; simpl; [done|].
  inversion Hcodes as [|? ? Hfour Hcodes']; subst. rewrite IH by done. f_equal.
  apply encode_ascii_Ok in Hcode as [_ ->].
  unfold Bytes.len at 2. rewrite length_list_byte_of_string, Hfour. lia.
Qed.


End IcnsLayout.

(** C1, as stated, fails: with a one-row table whose code has three
    characters the total-length field is 8 + (7 + payload length), one
    less than 8 + (8 + payload length), whatever the encoder; on the
    sample externals the two numbers are 20 and 21. *)
Lemma icns_total_length_short_code :
  (∀ (E : Externals) blob payload,
     @icns_file E [(16, "abc")] = Ok blob → @icns_png E 16 = Ok payload →
     Icns.total_length blob = 15 + Bytes.len payload
     ∧ Icns.declared_sum [payload] = 16 + Bytes.len payload
     ∧ Icns.total_length blob ≠ Icns.declared_sum [payload])
  ∧ ∃ blob payload,
      @icns_file sample_externals [(16, "abc")] = Ok blob
      ∧ @icns_png sample_externals 16 = Ok payload
      ∧ Icns.total_length blob = 20
      ∧ Icns.declared_sum [payload] = 21.
Proof.
  split.
  - intros E blob payload Hrun Hpng.
    apply icns_file_Ok in Hrun as (elements & Hall & _ & Htot & ->).
    inversion Hall as [|? [code p] ? ? [Hcode Hp] Hnil]; subst.
    inversion Hnil; subst. simpl in Hcode, Hp.
    rewrite Hpng in Hp. injection Hp as <-. injection Hcode as <-.
    rewrite total_length_blob_layout, len_blob_layout, len_elements_layout by done.
    unfold Icns.declared_sum. simpl.
    change (Bytes.len (list_byte_of_string "abc")) with 3. lia.
  - do 2 eexists. vm_compute. done.
Qed.

(** C1, amended: whenever the packer returns a container, its total-length
    field is the byte length of the whole container, which is 8 plus, per
    row, the code length, 4 and the payload length; when every code has
    four characters this is 8 + Σ (8 + payload length). *)
Theorem icns_total_length `{Externals} (rows : list (Z * string)) (blob : list byte) :
  icns_file rows = Ok blob →
  Icns.total_length blob = Bytes.len blob
  ∧ Bytes.len blob = 8 + rows_bytes rows
  ∧ (Forall (fun row => String.length row.2 = 4%nat) rows →
     ∃ payloads, Forall2 (fun row p => icns_png row.1 = Ok p) rows payloads
                 ∧ Icns.total_length blob = Icns.declared_sum payloads).
Proof.
  intros Hrun. apply icns_file_Ok in Hrun as (elements & Hall & _ & Htot & ->).
  pose proof (total_length_blob_layout elements Htot) as Hfield.
  split; [done|]. split.
  - by rewrite len_blob_layout, (rows_bytes_elements rows elements).
  - intros Hcodes. exists (map snd elements). split.
    + clear -Hall. induction Hall as [|row e rows elements [_ Hpng] _ IH]; simpl;
        by constructor.
    + rewrite Hfield, len_blob_layout. symmetry. by eapply declared_sum_elements.
Qed.

(** The statement on the fixed table and on a one-row table, on the
    sample externals. *)
Lemma icns_total_length_fixed_table :
  (@icns_file sample_externals icns_sizes = Ok sample_icns_blob
   ∧ Icns.total_length sample_icns_blob = Bytes.len sample_icns_blob
   ∧ Bytes.len sample_icns_blob = 8 + @rows_bytes sample_externals icns_sizes
   ∧ (Forall (fun row => String.length row.2 = 4%nat) icns_sizes →
      ∃ payloads,
        Forall2 (fun row p => @icns_png sample_externals row.1 = Ok p) icns_sizes payloads
        ∧ Icns.total_length sample_icns_blob = Icns.declared_sum payloads))
  ∧ (@icns_file sample_externals [(16, "ic04")] = Ok sample_icns_single
     ∧ Icns.total_length sample_icns_single = Bytes.len sample_icns_single
     ∧ Bytes.len sample_icns_single = 8 + @rows_bytes sample_externals [(16, "ic04")]
     ∧ (Forall (fun row => String.length row.2 = 4%nat) [(16, "ic04")] →
        ∃ payloads,
          Forall2 (fun row p => @icns_png sample_externals row.1 = Ok p) [(16, "ic04")] payloads
          ∧ Icns.total_length sample_icns_single = Icns.declared_sum payloads)).
Proof.
  split.
  - split; [vm_compute; reflexivity|].
    apply (@icns_total_length sample_externals icns_sizes sample_icns_blob).
    vm_compute; reflexivity.
  - split; [vm_compute; reflexivity|].
    apply (@icns_total_length sample_externals [(16, "ic04")] sample_icns_single).
    vm_compute; reflexivity.
Defined.



(** C3: [create_icns] packs the fixed table: eleven rows, the sizes 16,
    32, 64, 128, 256, 512, 1024 and then 32, 64, 256, 512 again; each of
    32, 64, 256, 512 occurs twice, no code occurs twice, so the codes and
    not the sizes identify the rows. *)
Theorem icns_sizes_table `{Externals} `{System} :
  create_icns = create_icns_with icns_sizes
  ∧ length icns_sizes = 11%nat
  ∧ map fst icns_sizes = [16; 32; 64; 128; 256; 512; 1024; 32; 64; 256; 512]
  ∧ map snd icns_sizes
    = ["ic04"; "ic05"; "ic06"; "ic07"; "ic08"; "ic09"; "ic10"; "ic11"; "ic12"; "ic13"; "ic14"]
  ∧ NoDup (map snd icns_sizes)
  ∧ ¬ NoDup (map fst icns_sizes)
  ∧ Forall (fun size => length (filter (fun row => row.1 = size) icns_sizes) = 2%nat)
           [32; 64; 256; 512]
  ∧ Forall (fun size => length (filter (fun row => row.1 = size) icns_sizes) = 1%nat)
           [16; 128; 1024]
  ∧ Forall (fun row => String.length row.2 = 4%nat) icns_sizes.
Proof.
  split; [done|]. split; [done|]. split; [done|]. split; [done|].
  split; [refine (bool_decide_unpack _ _); vm_compute; exact I|].
  split; [refine (bool_decide_unpack _ _); vm_compute; exact I|].
  split; [repeat constructor|]. split; repeat constructor.
Qed.





(** ** The Windows container *)

(** C5: with an empty size list [images[0]] raises IndexError before
    anything is saved: no file is written and nothing is printed. *)
Theorem create_ico_with_no_sizes `{Externals} `{System} (output_path : string) (w : World) :
  ico_file [] = Err IndexError
  ∧ create_ico_with [] output_path w = (Err IndexError, w).
Proof. split; reflexivity. Qed.

Section IcoFacts.
Context `{Externals}.

Lemma list_comprehension_total (sizes : list Z) :
  Forall (fun size => 0 ≤ size ≤ PyFloat.max_int) sizes →
  ∃ images, list_comprehension create_base_icon sizes = Ok images
            ∧ Forall2 (fun size img => create_base_icon size = Ok img
                                       ∧ bitmap_of_size size img) sizes images.
Proof.
  induction 1 as [|size sizes Hsize _ (images & Hrun & Hall)]; simpl.
  - exists []. split; [done | constructor].
  - destruct (create_base_icon_total size Hsize) as (img & Himg & Hbitmap).
    exists (img :: images). rewrite Himg, bind_Ok, Hrun, bind_Ok.
    split; [done | by constructor].
Qed.

(** Saving a 16 × 16 image with the six sizes of [create_ico] keeps the
    16 × 16 frame alone: every other size exceeds the saved image. *)
Lemma frames_of_16 (img16 : Image) (append_images : list Image) :
  im_size img16 = (16, 16) →
  Ico.frames img16 (map (fun s => (s, s)) ico_sizes) append_images = [img16].
Proof.
  intros Hsize. unfold Ico.frames. rewrite Hsize.
  change (Ico.sorted_set (map (fun s => (s, s)) ico_sizes))
    with [(16, 16); (32, 32); (48, 48); (64, 64); (128, 128); (256, 256)].
  cbn [flat_map find]. rewrite Hsize. reflexivity.
Qed.

Lemma entry_Ok (frame : Image) (offset : Z) (size : Z) :
  im_size frame = (size, size) → 0 < size → 0 ≤ offset < 2 ^ 32 →
  Bytes.len (png_encode frame) < 2 ^ 32 →
  Ico.entry frame offset
  = Ok (Ico.o8 (if size <? 256 then size else 0) ++ Ico.o8 (if size <? 256 then size else 0)
        ++ Ico.o8 0 ++ ["000"]%byte ++ ["000"; "000"]%byte
        ++ [Bytes.of_Z 32; Bytes.of_Z (32 ≫ 8)]
        ++ [Bytes.of_Z (Bytes.len (png_encode frame));
            Bytes.of_Z (Bytes.len (png_encode frame) ≫ 8);
            Bytes.of_Z (Bytes.len (png_encode frame) ≫ 16);
            Bytes.of_Z (Bytes.len (png_encode frame) ≫ 24)]
        ++ [Bytes.of_Z offset; Bytes.of_Z (offset ≫ 8); Bytes.of_Z (offset ≫ 16);
            Bytes.of_Z (offset ≫ 24)],
        png_encode frame).
Proof.
  intros Hsize Hpos Hoff Hlen. unfold Ico.entry. rewrite Hsize.
  change (Ico.o16 32) with (Ok [Bytes.of_Z 32; Bytes.of_Z (32 ≫ 8)]). rewrite bind_Ok.
  unfold PIL.save_png. rewrite Hsize. simpl fst. simpl snd.
  destruct (Z.leb_spec size 0); [lia|]. simpl orb. cbv iota. rewrite bind_Ok.
  pose proof (len_nonneg (png_encode frame)).
  unfold Ico.o32.
  rewrite (proj2 (pack_LE_I_Ok (Bytes.len (png_encode frame)) _)
                 (conj (conj (len_nonneg _) Hlen) eq_refl)).
  rewrite bind_Ok.
  rewrite (proj2 (pack_LE_I_Ok offset _) (conj Hoff eq_refl)).
  rewrite bind_Ok. by rewrite <- !app_assoc.
Qed.

Lemma entry_Err (frame : Image) (offset : Z) (size : Z) :
  im_size frame = (size, size) → 0 < size →
  ¬ Bytes.len (png_encode frame) < 2 ^ 32 →
  Ico.entry frame offset = Err StructError.
Proof.
  intros Hsize Hpos Hlen. unfold Ico.entry. rewrite Hsize.
  change (Ico.o16 32) with (Ok [Bytes.of_Z 32; Bytes.of_Z (32 ≫ 8)]). rewrite bind_Ok.
  unfold PIL.save_png. rewrite Hsize. simpl fst. simpl snd.
  destruct (Z.leb_spec size 0); [lia|]. simpl orb. cbv iota. rewrite bind_Ok.
  unfold Ico.o32. rewrite (pack_LE_I_Err (Bytes.len (png_encode frame))) by lia.
  reflexivity.
Qed.

(** The directory of a container with one 16 × 16 frame. *)
Lemma directory_one (n : Z) (payload : list byte) :
  0 ≤ n < 2 ^ 32 →
  Ico.directory
    (Ico._MAGIC ++ [Bytes.of_Z 1; Bytes.of_Z (1 ≫ 8)]
     ++ (Ico.o8 16 ++ Ico.o8 16 ++ Ico.o8 0 ++ ["000"]%byte ++ ["000"; "000"]%byte
         ++ [Bytes.of_Z 32; Bytes.of_Z (32 ≫ 8)]
         ++ [Bytes.of_Z n; Bytes.of_Z (n ≫ 8); Bytes.of_Z (n ≫ 16); Bytes.of_Z (n ≫ 24)]
         ++ [Bytes.of_Z 22; Bytes.of_Z (22 ≫ 8); Bytes.of_Z (22 ≫ 16); Bytes.of_Z (22 ≫ 24)])
     ++ payload)
  = [(16, 16, n, 22)].
Proof.
  intros Hn.
  change (Ico.directory _)
    with [(16, 16,
           Bytes.le_decode
             [Bytes.of_Z n; Bytes.of_Z (n ≫ 8); Bytes.of_Z (n ≫ 16); Bytes.of_Z (n ≫ 24)],
           22)].
  by rewrite le_decode_le32.
Qed.

(** The container [create_ico] writes, and when. *)
Lemma ico_file_fixed (img16 : Image) :
  create_base_icon 16 = Ok img16 →
  im_size img16 = (16, 16)
  ∧ (Bytes.len (png_encode img16) < 2 ^ 32 →
     ∃ blob, ico_file ico_sizes = Ok blob
             ∧ Ico.count blob = 1
             ∧ Ico.directory blob = [(16, 16, Bytes.len (png_encode img16), 22)])
  ∧ (¬ Bytes.len (png_encode img16) < 2 ^ 32 → ico_file ico_sizes = Err StructError).
Proof.
  intros Hrun.
  destruct (list_comprehension_total ico_sizes) as (images & Himages & Hall).
  { pose proof max_int_large. unfold ico_sizes. repeat constructor; lia. }
  inversion Hall as [|? img ? images' [Himg Hbitmap] Hall']; subst.
  rewrite Hrun in Himg. injection Himg as <-.
  pose proof Hbitmap as (_ & Hsize & _).
  split; [done|].
  assert (Hsave : ico_file ico_sizes
                  = Ico.save img16 (map (fun s => (s, s)) ico_sizes) images').
  { unfold ico_file. by rewrite Himages, bind_Ok. }
  rewrite Hsave. unfold Ico.save. rewrite frames_of_16 by done.
  change (Ico.o16 (Z.of_nat (length [img16]))) with (Ok [Bytes.of_Z 1; Bytes.of_Z (1 ≫ 8)]).
  rewrite bind_Ok.
  change (Bytes.len (Ico._MAGIC ++ [Bytes.of_Z 1; Bytes.of_Z (1 ≫ 8)])
          + Z.of_nat (length [img16]) * 16) with 22.
  cbn [Ico.write_frames]. split.
  - intros Hlen. rewrite (entry_Ok img16 22 16) by (done || lia).
    rewrite !bind_Ok. eexists. split; [done|]. split; [reflexivity|].
    pose proof (len_nonneg (png_encode img16)).
    exact (directory_one (Bytes.len (png_encode img16)) (png_encode img16 ++ [])
                         (conj ltac:(done) Hlen)).
  - intros Hlen. by rewrite (entry_Err img16 22 16) by (done || lia).
Qed.

End IcoFacts.

(** C4, on the code: [create_ico] saves the 16 × 16 image with the six
    sizes and the five larger images appended; the writer leaves out every
    size above the saved image, so the container holds one directory
    entry, 16 × 16, where the six sizes ask for six. *)
Theorem create_ico_writes_one_entry `{Externals} `{System} :
  create_ico = create_ico_with ico_sizes
  ∧ ico_sizes = [16; 32; 48; 64; 128; 256]
  ∧ ∃ img16, create_base_icon 16 = Ok img16
             ∧ (Bytes.len (png_encode img16) < 2 ^ 32 → is_Ok (ico_file ico_sizes))
             ∧ ∀ blob, ico_file ico_sizes = Ok blob →
                       Ico.count blob = 1
                       ∧ Ico.directory blob = [(16, 16, Bytes.len (png_encode img16), 22)].
Proof.
  split; [done|]. split; [done|].
  destruct (create_base_icon_total 16) as (img16 & Hrun & _);
    [pose proof max_int_large; lia|].
  exists img16. split; [done|].
  destruct (ico_file_fixed img16 Hrun) as (_ & Hok & Herr). split.
  - intros Hlen. destruct (Hok Hlen) as (blob & Hblob & _). by exists blob.
  - intros blob Hblob.
    destruct (decide (Bytes.len (png_encode img16) < 2 ^ 32)) as [Hlen|Hlen].
    + destruct (Hok Hlen) as (blob' & Hblob' & Hdir). congruence.
    + rewrite (Herr Hlen) in Hblob. done.
Qed.

(** The same on the sample externals, and a size list whose first size is
    the largest: the directory then comes sorted, not in input order. *)
Example ico_directory_samples :
  (Ico.directory <$> (match @ico_file sample_externals ico_sizes with
                      | Ok blob => Some blob | Err _ => None end))
  = Some [(16, 16, 5, 22)]
  ∧ (Ico.directory <$> (match @ico_file sample_externals [256; 16] with
                        | Ok blob => Some blob | Err _ => None end))
    = Some [(16, 16, 5, 38); (256, 256, 5, 43)].
Proof. split; vm_compute; reflexivity. Qed.

(** ** The driver *)

Lemma append_inj_l (p a b : string) : p +:+ a = p +:+ b → a = b.
Proof. induction p as [|c p IH]; simpl; [done|]. intros [= Heq]. by apply IH. Qed.

Lemma append_assoc (a b c : string) : a +:+ b +:+ c = (a +:+ b) +:+ c.
Proof.
  induction a as [|x a IH]; [done|].
  change (String x (a +:+ b +:+ c) = String x ((a +:+ b) +:+ c)). by f_equal.
Qed.

Lemma join_relative (d name : string) :
  os_path.startswith_sep name = false →
  ∃ prefix, ∀ name', os_path.startswith_sep name' = false →
                     os_path.join d name' = prefix +:+ name'.
Proof.
  intros _. unfold os_path.join.
  destruct (bool_decide (d = "") || os_path.endswith_sep d).
  - exists d. intros name' ->. done.
  - exists (d +:+ "/"). intros name' ->. by rewrite append_assoc.
Qed.

Lemma output_paths_distinct (env : Env) : NoDup (output_paths env).
Proof.
  unfold output_paths, ico_path, icns_path, png_path.
  destruct (join_relative (output_dir env) "icon.ico" eq_refl) as [prefix Hjoin].
  rewrite !Hjoin by done.
  repeat constructor; rewrite ?elem_of_cons, ?elem_of_nil;
    intros Hin; repeat destruct Hin as [Hin|Hin]; try done;
    apply append_inj_l in Hin; discriminate.
Qed.

Section DriverFacts.
Context `{Externals} `{System}.


Lemma and_then_Ok {A B} (m : IO A) (k : A → IO B) (w w' : World) (b : B) :
  and_then m k w = (Ok b, w') ↔ ∃ a w1, m w = (Ok a, w1) ∧ k a w1 = (Ok b, w').
Proof.
  unfold and_then. destruct (m w) as [[a|e] w1].
  - split; [by exists a, w1 | by intros (? & ? & [= <- <-] & ?)].
  - split; [done | by intros (? & ? & [=] & _)].
Qed.


(** A call is recorded whether it raises or not. *)
Lemma call_calls (c : Call) (w : World) : calls (call c w).2 = calls w ++ [c].
Proof. unfold call. by destruct (respond c (state w)) as [[e|] s]. Qed.

Lemma call_result (c : Call) (w w' : World) (r : result ()) :
  call c w = (r, w') → calls w' = calls w ++ [c].
Proof. intros Hcall. rewrite <- call_calls. by rewrite Hcall. Qed.

Lemma write_file_Ok (path : string) (data : list byte) (w w' : World) :
  write_file path data w = (Ok (), w') → calls w' = calls w ++ [Open path; WriteBytes path data].
Proof.
  intros Hrun. apply and_then_Ok in Hrun as ([] & w1 & Hopen & Hwrite).
  apply call_result in Hopen, Hwrite. rewrite Hwrite, Hopen. by rewrite <- app_assoc.
Qed.

Lemma save_Ok (path : string) (encoded : result (list byte)) (w w' : World) :
  save path encoded w = (Ok (), w') →
  ∃ data, encoded = Ok data ∧ calls w' = calls w ++ [Open path; WriteBytes path data].
Proof.
  intros Hrun. apply and_then_Ok in Hrun as ([] & w1 & Hopen & Hwrite).
  destruct encoded as [data|e]; [|done]. exists data. split; [done|].
  apply call_result in Hopen, Hwrite. rewrite Hwrite, Hopen. by rewrite <- app_assoc.
Qed.

Lemma makedirs_Ok (dir : string) (w w' : World) (d : string) :
  and_then (makedirs dir) (fun _ => pure (Ok dir)) w = (Ok d, w') →
  d = dir ∧ calls w' = calls w ++ [Makedirs dir].
Proof.
  intros Hrun. apply and_then_Ok in Hrun as ([] & w1 & Hmk & [= <- <-]).
  split; [done|]. by apply call_result in Hmk.
Qed.

Lemma resolve_output_dir_run (env : Env) :
  resolve_output_dir env
  = and_then (makedirs (output_dir env)) (fun _ => pure (Ok (output_dir env))).
Proof.
  unfold resolve_output_dir, output_dir, get_output_directory.
  destruct (argv env) as [|a [|dir rest]]; reflexivity.
Qed.

Lemma create_ico_with_Ok (sizes : list Z) (output_path : string) (w w' : World) :
  create_ico_with sizes output_path w = (Ok (), w') →
  ∃ blob, ico_file sizes = Ok blob
          ∧ calls w' = calls w ++ [Open output_path; WriteBytes output_path blob;
                                   PrintLine ("✓ Created Windows icon: " +:+ output_path)].
Proof.
  unfold create_ico_with, ico_file. intros Hrun.
  apply and_then_Ok in Hrun as (images & w1 & [= Himages <-] & Hrun).
  apply and_then_Ok in Hrun as (im & w1 & [= Him <-] & Hrun).
  apply and_then_Ok in Hrun as ([] & w1 & Hsave & Hprint).
  apply save_Ok in Hsave as (blob & Hblob & Hcalls). apply call_result in Hprint.
  exists blob. split; [by rewrite Himages, bind_Ok, Him, bind_Ok|].
  rewrite Hprint, Hcalls. by rewrite <- app_assoc.
Qed.

Lemma create_icns_with_Ok (rows : list (Z * string)) (output_path : string) (w w' : World) :
  create_icns_with rows output_path w = (Ok (), w') →
  ∃ blob, icns_file rows = Ok blob
          ∧ calls w' = calls w ++ [Open output_path; WriteBytes output_path blob;
                                   PrintLine ("✓ Created macOS icon: " +:+ output_path)].
Proof.
  unfold create_icns_with. intros Hrun.
  apply and_then_Ok in Hrun as (blob & w1 & [= Hblob <-] & Hrun).
  apply and_then_Ok in Hrun as ([] & w1 & Hwrite & Hprint).
  apply write_file_Ok in Hwrite. apply call_result in Hprint.
  exists blob. split; [done|]. rewrite Hprint, Hwrite. by rewrite <- app_assoc.
Qed.

Lemma create_png_Ok (output_path : string) (size : Z) (w w' : World) :
  create_png output_path size w = (Ok (), w') →
  ∃ blob, png_file size = Ok blob
          ∧ calls w' = calls w ++ [Open output_path; WriteBytes output_path blob;
                                   PrintLine ("✓ Created PNG icon: " +:+ output_path)].
Proof.
  unfold create_png, png_file. intros Hrun.
  apply and_then_Ok in Hrun as (img & w1 & [= Himg <-] & Hrun).
  apply and_then_Ok in Hrun as ([] & w1 & Hsave & Hprint).
  apply save_Ok in Hsave as (blob & Hblob & Hcalls). apply call_result in Hprint.
  exists blob. split; [by rewrite Himg, bind_Ok|].
  rewrite Hprint, Hcalls. by rewrite <- app_assoc.
Qed.

End DriverFacts.

(** * Further properties *)

(** ** The rasterizer, call by call *)










(** X2: the gradient ellipses are nested and fade: the box of a later turn
    lies inside the box of every earlier turn, and within the
    GRADIENT_ITERATIONS turns a later turn has a strictly smaller alpha. *)
Theorem gradient_ellipses_nested (center i j : Z) :
  0 ≤ i ≤ j →
  box_inside (gradient_box center j) (gradient_box center i)
  ∧ (i < j < GRADIENT_ITERATIONS → gradient_alpha j < gradient_alpha i).
Proof.
  intros Hij. split.
  - unfold box_inside, gradient_box, gradient_radius. cbv zeta. lia.
  - unfold GRADIENT_ITERATIONS. intros Hlt.
    assert (Hi : i = 0 ∨ i = 1 ∨ i = 2 ∨ i = 3 ∨ i = 4 ∨ i = 5 ∨ i = 6 ∨ i = 7 ∨ i = 8) by lia.
    assert (Hj : j = 1 ∨ j = 2 ∨ j = 3 ∨ j = 4 ∨ j = 5 ∨ j = 6 ∨ j = 7 ∨ j = 8 ∨ j = 9) by lia.
    repeat destruct Hi as [Hi|Hi]; subst i; repeat destruct Hj as [Hj|Hj]; subst j;
      try lia; vm_compute; reflexivity.
Qed.

Lemma gradient_ellipses_nested_at_256 :
  0 ≤ 2 ≤ 7
  ∧ box_inside (gradient_box 256 7) (gradient_box 256 2)
  ∧ (2 < 7 < GRADIENT_ITERATIONS → gradient_alpha 7 < gradient_alpha 2).
Proof. split; [lia|]. apply (gradient_ellipses_nested 256 2 7). lia. Defined.











(** ** The Apple container, read back *)

Lemma read_elements_layout (elements : list (list byte * list byte)) (fuel : nat) :
  Forall (fun e => length e.1 = 4%nat ∧ 8 + Bytes.len e.2 < 2 ^ 32) elements →
  (length elements ≤ fuel)%nat →
  read_elements fuel (Icns.elements_layout elements) = Some elements.
Proof.
  revert fuel. induction elements as [|[code payload] elements IH]; intros fuel Hall Hfuel.
  - by destruct fuel.
  - inversion Hall as [|? ? [Hcode Hlen] Hall']; subst. simpl in Hcode, Hlen.
    destruct fuel as [|fuel]; [simpl in Hfuel; lia|].
    destruct code as [|a [|b [|c [|d [|]]]]]; try done.
    unfold Icns.elements_layout. cbn [map concat fst snd].
    fold (Icns.elements_layout elements).
    unfold Icns.element_layout.
    remember (8 + Bytes.len payload) as n eqn:Hn0.
    set (rest := Icns.elements_layout elements).
    change (([a; b; c; d] ++ Icns.be32 n ++ payload) ++ rest)
      with (a :: b :: c :: d :: Icns.be32 n ++ payload ++ rest).
    cbn [read_elements].
    change (take 4 (drop 4 (a :: b :: c :: d :: Icns.be32 n ++ payload ++ rest)))
      with (Icns.be32 n).
    pose proof (len_nonneg payload) as Hp. pose proof (len_nonneg rest) as Hr.
    rewrite be_decode_be32 by lia. cbv zeta.
    assert (Hlen_bs : Bytes.len (a :: b :: c :: d :: Icns.be32 n ++ payload ++ rest)
                      = n + Bytes.len rest).
    { unfold Bytes.len in *. simpl length. rewrite length_app. lia. }
    rewrite Hlen_bs.
    destruct (Z.ltb_spec n 8); [lia|]. destruct (Z.ltb_spec (n + Bytes.len rest) n); [lia|].
    cbn [orb].
    assert (Hn : Z.to_nat n = (8 + length payload)%nat) by (unfold Bytes.len in Hn0; lia).
    assert (Hn8 : Z.to_nat (n - 8) = length payload) by (unfold Bytes.len in Hn0; lia).
    rewrite Hn, Hn8.
    change (drop (8 + length payload) (a :: b :: c :: d :: Icns.be32 n ++ payload ++ rest))
      with (drop (length payload) (payload ++ rest)).
    change (drop 8 (a :: b :: c :: d :: Icns.be32 n ++ payload ++ rest))
      with (payload ++ rest).
    rewrite drop_app_length, take_app_length.
    rewrite IH by (done || (simpl in Hfuel; lia)). reflexivity.
Qed.

Lemma length_elements_le (elements : list (list byte * list byte)) :
  Forall (fun e => length e.1 = 4%nat) elements →
  (length elements ≤ length (Icns.elements_layout elements))%nat.
Proof.
  induction 1 as [|[code payload] elements Hcode _ IH]; [done|].
  unfold Icns.elements_layout in *. cbn [map concat length fst snd].
  rewrite length_app. unfold Icns.element_layout at 1. rewrite length_app.
  simpl in Hcode. rewrite Hcode. lia.
Qed.

Lemma read_icns_layout (elements : list (list byte * list byte)) :
  Forall (fun e => length e.1 = 4%nat ∧ 8 + Bytes.len e.2 < 2 ^ 32) elements →
  8 + Bytes.len (Icns.elements_layout elements) < 2 ^ 32 →
  read_icns (Icns.blob_layout elements) = Some elements.
Proof.
  intros Hall Htot. unfold read_icns.
  rewrite magic_blob_layout, total_length_blob_layout by done.
  rewrite bool_decide_eq_true_2 by done. rewrite Z.eqb_refl. cbn [andb].
  change (drop 8 (Icns.blob_layout elements)) with (Icns.elements_layout elements).
  apply read_elements_layout; [done|].
  assert (Hle : (length elements ≤ length (Icns.elements_layout elements))%nat).
  { apply length_elements_le. eapply Forall_impl; [exact Hall|]. by intros e [? _]. }
  unfold Icns.blob_layout. cbv zeta. rewrite !length_app. lia.
Qed.

(** X6: a container packed from rows whose codes have four characters
    reads back: a reader that checks the magic tag and the total length
    and then follows the length fields recovers, in row order, each row's
    code bytes and PNG payload, and nothing else. *)
Theorem icns_file_reads_back `{Externals} (rows : list (Z * string)) (blob : list byte) :
  icns_file rows = Ok blob →
  Forall (fun row => String.length row.2 = 4%nat) rows →
  ∃ elements, read_icns blob = Some elements
              ∧ Forall2 (fun row e => e.1 = list_byte_of_string row.2
                                      ∧ icns_png row.1 = Ok e.2) rows elements.
Proof.
  intros Hrun Hcodes. apply icns_file_Ok in Hrun as (elements & Hall & Hlens & Htot & ->).
  exists elements. split.
  - apply read_icns_layout; [|done].
    clear Htot. induction Hall as [|row e rows elements [Hcode _] _ IH]; [constructor|].
    inversion Hlens; subst. inversion Hcodes as [|? ? Hfour Hcodes']; subst.
    constructor; [|by apply IH]. split; [|done].
    apply encode_ascii_Ok in Hcode as [_ ->]. by rewrite length_list_byte_of_string.
  - clear -Hall. induction Hall as [|row e rows elements [Hcode Hpng] _ IH]; constructor; [|done].
    split; [|done]. by apply encode_ascii_Ok in Hcode as [_ ->].
Qed.

Lemma icns_file_reads_back_fixed_table :
  (@icns_file sample_externals icns_sizes = Ok sample_icns_blob
   ∧ Forall (fun row => String.length row.2 = 4%nat) icns_sizes)
  ∧ ∃ elements, read_icns sample_icns_blob = Some elements
                ∧ Forall2 (fun row e => e.1 = list_byte_of_string row.2
                                        ∧ @icns_png sample_externals row.1 = Ok e.2)
                          icns_sizes elements.
Proof.
  assert (Hrun : @icns_file sample_externals icns_sizes = Ok sample_icns_blob)
    by (vm_compute; reflexivity).
  assert (Hcodes : Forall (fun row => String.length row.2 = 4%nat) icns_sizes)
    by (repeat constructor).
  split; [exact (conj Hrun Hcodes)|].
  exact (@icns_file_reads_back sample_externals icns_sizes sample_icns_blob Hrun Hcodes).
Defined.

(** X7: one bad row anywhere in the table, a negative size or a code with
    a character outside ASCII, makes the packer raise, whatever the rows
    before and after it; [create_icns] then writes no file and prints
    nothing, since the file is opened only after every element is built. *)
Theorem icns_file_bad_row `{Externals} `{System} (rows : list (Z * string)) :
  Exists bad_row rows →
  ∃ e, icns_file rows = Err e
       ∧ ∀ output_path w, create_icns_with rows output_path w = (Err e, w).
Proof.
  intros Hbad.
  assert (Hloop : ∀ temp_data, ∃ e, for_each icns_step rows temp_data = Err e).
  { induction Hbad as [[size code] rows Hrow|row rows _ IH]; intros temp_data; cbn [for_each].
    - assert (Hstep : ∃ e, icns_step temp_data (size, code) = Err e).
      { unfold icns_step. destruct Hrow as [Hneg|Hcode]; simpl in Hneg || simpl in Hcode.
        - unfold icns_png, create_base_icon, PIL.new. simpl.
          destruct (Z.ltb_spec size 0); [|lia]. simpl. by eexists.
        - destruct (icns_png size); simpl; [|by eexists].
          unfold encode_ascii. rewrite Hcode. simpl. by eexists. }
      destruct Hstep as [e ->]. by exists e.
    - destruct (icns_step temp_data row) as [temp'|e]; simpl; [apply IH | by exists e]. }
  destruct (Hloop []) as [e He]. exists e.
  assert (Hfile : icns_file rows = Err e) by (unfold icns_file; cbv zeta; by rewrite He).
  split; [done|]. intros output_path w. unfold create_icns_with, and_then, pure.
  by rewrite Hfile.
Qed.

Lemma icns_file_bad_row_in_the_middle :
  Exists bad_row [(16, "ic04"); (-32, "ic05"); (64, "ic06")]
  ∧ ∃ e, @icns_file sample_externals [(16, "ic04"); (-32, "ic05"); (64, "ic06")] = Err e
         ∧ ∀ output_path w,
             @create_icns_with sample_externals sample_system
                               [(16, "ic04"); (-32, "ic05"); (64, "ic06")]
                               output_path w = (Err e, w).
Proof.
  assert (Hbad : Exists bad_row [(16, "ic04"); (-32, "ic05"); (64, "ic06")]).
  { apply Exists_cons_tl, Exists_cons_hd. left. simpl. lia. }
  split; [done|]. exact (@icns_file_bad_row sample_externals sample_system _ Hbad).
Defined.

(** ** Paths *)

Lemma list_ascii_of_string_app (a b : string) :
  list_ascii_of_string (a +:+ b) = list_ascii_of_string a ++ list_ascii_of_string b.
Proof.
  induction a as [|c a IH]; [done|].
  change (String c a +:+ b) with (String c (a +:+ b)). simpl. by rewrite IH.
Qed.

Lemma drop_while_all {A} (p : A → bool) (l k : list A) :
  forallb p l = true → os_path.drop_while p (l ++ k) = os_path.drop_while p k.
Proof.
  induction l as [|x l IH]; simpl; [done|].
  intros [-> Hl]%andb_true_iff. by apply IH.
Qed.

Lemma forallb_rev {A} (p : A → bool) (l : list A) : forallb p (rev l) = forallb p l.
Proof.
  induction l as [|x l IH]; simpl; [done|].
  rewrite forallb_app, IH. simpl. rewrite andb_true_r. apply andb_comm.
Qed.

Lemma endswith_sep_false (d : string) :
  os_path.endswith_sep d = false →
  d = "" ∨ ∃ c t, rev (list_ascii_of_string d) = c :: t ∧ os_path.is_sep c = false.
Proof.
  unfold os_path.endswith_sep. intros Hend.
  destruct (rev (list_ascii_of_string d)) as [|c t] eqn:Hrev.
  - left. apply (f_equal (@rev ascii)) in Hrev. rewrite rev_involutive in Hrev. simpl in Hrev.
    rewrite <- (string_of_list_ascii_of_string d), Hrev. done.
  - right. by exists c, t.
Qed.

(** The directory part of [r/name]. *)
Lemma dirname_slash (r name : string) :
  os_path.endswith_sep r = false → no_sep name →
  os_path.dirname (r +:+ "/" +:+ name) = if bool_decide (r = "") then "/" else r.
Proof.
  intros Hend Hname. unfold os_path.dirname.
  rewrite !list_ascii_of_string_app, !rev_app_distr.
  change (rev (list_ascii_of_string "/")) with [os_path.sep].
  rewrite <- app_assoc.
  rewrite drop_while_all by (rewrite forallb_rev; exact Hname).
  cbn [app os_path.drop_while]. change (negb (os_path.is_sep os_path.sep)) with false.
  cbv iota.
  destruct (endswith_sep_false r Hend) as [->|(c & t & Hrev & Hc)].
  - reflexivity.
  - rewrite Hrev. cbn [forallb]. change (os_path.is_sep os_path.sep) with true.
    rewrite Hc. cbn [andb negb]. rewrite bool_decide_eq_true_2 by done. cbn [andb].
    cbn [os_path.drop_while]. change (os_path.is_sep os_path.sep) with true. cbv iota.
    rewrite Hc. rewrite <- Hrev, rev_involutive, string_of_list_ascii_of_string.
    rewrite bool_decide_eq_false_2; [done|].
    intros ->. discriminate Hrev.
Qed.

Lemma dirname_no_sep (name : string) : no_sep name → os_path.dirname name = "".
Proof.
  intros Hname. unfold os_path.dirname.
  rewrite <- (app_nil_r (rev (list_ascii_of_string name))).
  rewrite drop_while_all by (rewrite forallb_rev; exact Hname). reflexivity.
Qed.

Lemma no_sep_startswith (name : string) : no_sep name → os_path.startswith_sep name = false.
Proof.
  unfold no_sep. destruct name as [|c name]; [done|]. simpl.
  intros [Hc _]%andb_true_iff. by apply negb_true_iff.
Qed.

(** X8: [dirname] undoes [join]: when the directory does not end in a
    separator and the name has none, the directory part of the joined
    path is the directory again (the empty directory included). *)
Theorem dirname_join (d name : string) :
  os_path.endswith_sep d = false → no_sep name →
  os_path.dirname (os_path.join d name) = d.
Proof.
  intros Hend Hname. unfold os_path.join. rewrite (no_sep_startswith name Hname).
  rewrite Hend, orb_false_r. destruct (bool_decide_reflect (d = "")) as [->|Hd].
  - by apply dirname_no_sep.
  - rewrite (dirname_slash d name Hend Hname). by rewrite bool_decide_eq_false_2.
Qed.

Lemma dirname_join_assets :
  (os_path.endswith_sep "/repo" = false ∧ no_sep "assets")
  ∧ os_path.dirname (os_path.join "/repo" "assets") = "/repo".
Proof.
  assert (Hend : os_path.endswith_sep "/repo" = false) by reflexivity.
  assert (Hname : no_sep "assets") by reflexivity.
  split; [done|]. exact (dirname_join "/repo" "assets" Hend Hname).
Defined.

Lemma endswith_sep_app (a b : string) :
  b ≠ "" → os_path.endswith_sep (a +:+ b) = os_path.endswith_sep b.
Proof.
  intros Hb. unfold os_path.endswith_sep. rewrite list_ascii_of_string_app, rev_app_distr.
  destruct (rev (list_ascii_of_string b)) as [|c t] eqn:Hrev; [|done].
  exfalso. apply Hb. apply (f_equal (@rev ascii)) in Hrev. rewrite rev_involutive in Hrev.
  rewrite <- (string_of_list_ascii_of_string b), Hrev. done.
Qed.

Lemma endswith_sep_no_sep (name : string) : no_sep name → os_path.endswith_sep name = false.
Proof.
  unfold no_sep, os_path.endswith_sep. intros Hname. rewrite <- forallb_rev in Hname.
  destruct (rev (list_ascii_of_string name)) as [|c t]; [done|]. simpl in Hname.
  apply andb_true_iff in Hname as [Hc _]. by apply negb_true_iff.
Qed.

Lemma append_nonempty (a b : string) : b ≠ "" → a +:+ b ≠ "".
Proof. intros Hb. destruct a; [done | discriminate]. Qed.

(** X9: started without an argument from [root/dir/file], the script
    makes one call to create [root/assets], takes that directory as its
    output directory when the call does not raise, and names its three
    files [root/assets/icon.ico], [.icns] and [.png]; this holds for a
    script directly under the file system root ([root] empty) too. *)
Theorem default_output_directory `{System} (root dir file : string) (args : list string)
    (w : World) :
  os_path.endswith_sep root = false → no_sep dir → dir ≠ "" → no_sep file →
  (length args ≤ 1)%nat →
  let env := mkEnv args (root +:+ "/" +:+ dir +:+ "/" +:+ file) in
  get_output_directory env w
  = and_then (makedirs (root +:+ "/assets")) (fun _ => pure (Ok (root +:+ "/assets"))) w
  ∧ resolve_output_dir env w = get_output_directory env w
  ∧ calls (get_output_directory env w).2 = calls w ++ [Makedirs (root +:+ "/assets")]
  ∧ output_paths env
    = [root +:+ "/assets/icon.ico"; root +:+ "/assets/icon.icns"; root +:+ "/assets/icon.png"].
Proof.
  intros Hroot Hdir Hdir_ne Hfile Hargs env.
  assert (Hscript : script_abspath env = (root +:+ "/" +:+ dir) +:+ "/" +:+ file).
  { subst env. cbn [script_abspath]. by rewrite <- !append_assoc. }
  assert (Hr1 : os_path.endswith_sep (root +:+ "/" +:+ dir) = false).
  { rewrite append_assoc, endswith_sep_app by done. by apply endswith_sep_no_sep. }
  assert (Hd : os_path.join (os_path.dirname (os_path.dirname (script_abspath env))) "assets"
               = root +:+ "/assets").
  { rewrite Hscript, (dirname_slash _ file Hr1 Hfile).
    rewrite bool_decide_eq_false_2
      by (rewrite append_assoc; apply append_nonempty; exact Hdir_ne).
    rewrite (dirname_slash root dir Hroot Hdir).
    destruct (bool_decide_reflect (root = "")) as [->|Hne]; [reflexivity|].
    unfold os_path.join. cbn [os_path.startswith_sep]. 
    change (os_path.is_sep "a") with false. cbv iota.
    by rewrite bool_decide_eq_false_2, Hroot by done. }
  assert (Hget : get_output_directory env w
                 = and_then (makedirs (root +:+ "/assets"))
                            (fun _ => pure (Ok (root +:+ "/assets"))) w).
  { unfold get_output_directory. cbv zeta. by rewrite Hd. }
  split; [done|].
  assert (Hargv : argv env = args) by done.
  split; [|split].
  - unfold resolve_output_dir. rewrite Hargv.
    destruct args as [|a [|b rest]]; [done | done | simpl in Hargs; lia].
  - rewrite Hget. unfold and_then, makedirs, pure.
    pose proof (call_calls (Makedirs (root +:+ "/assets")) w) as Hcalls.
    by destruct (call (Makedirs (root +:+ "/assets")) w) as [[[]|e] w1].
  - unfold output_paths, ico_path, icns_path, png_path, output_dir. rewrite Hargv.
    assert (Hjoin : ∀ name, os_path.startswith_sep name = false →
                            os_path.join (root +:+ "/assets") name
                            = root +:+ "/assets" +:+ "/" +:+ name).
    { intros name Hname. unfold os_path.join. rewrite Hname.
      rewrite bool_decide_eq_false_2 by (by apply append_nonempty).
      rewrite endswith_sep_app by done. cbn [orb].
      change (os_path.endswith_sep "/assets") with false. cbv iota.
      by rewrite <- append_assoc. }
    destruct args as [|a [|b rest]]; [| |simpl in Hargs; lia];
      rewrite Hd, !Hjoin by done; reflexivity.
Qed.

Lemma default_output_directory_of_the_repository :
  (os_path.endswith_sep "/repo" = false ∧ no_sep "scripts" ∧ "scripts" ≠ ""
   ∧ no_sep "create_icons.py" ∧ (length ["create_icons.py"] ≤ 1)%nat)
  ∧ let env := mkEnv ["create_icons.py"] ("/repo" +:+ "/" +:+ "scripts" +:+ "/" +:+ "create_icons.py") in
    let w := @empty_world sample_system 0%nat in
    @get_output_directory sample_system env w
    = and_then (makedirs ("/repo" +:+ "/assets")) (fun _ => pure (Ok ("/repo" +:+ "/assets"))) w
    ∧ @resolve_output_dir sample_system env w = @get_output_directory sample_system env w
    ∧ calls (@get_output_directory sample_system env w).2
      = calls w ++ [Makedirs ("/repo" +:+ "/assets")]
    ∧ output_paths env
      = ["/repo" +:+ "/assets/icon.ico"; "/repo" +:+ "/assets/icon.icns";
         "/repo" +:+ "/assets/icon.png"].
Proof.
  assert (H1 : os_path.endswith_sep "/repo" = false) by reflexivity.
  assert (H2 : no_sep "scripts") by reflexivity.
  assert (H3 : "scripts" ≠ "") by discriminate.
  assert (H4 : no_sep "create_icons.py") by reflexivity.
  assert (H5 : (length ["create_icons.py"] ≤ 1)%nat) by (simpl; lia).
  split; [exact (conj H1 (conj H2 (conj H3 (conj H4 H5))))|].
  exact (@default_output_directory sample_system "/repo" "scripts" "create_icons.py"
           ["create_icons.py"] (@empty_world sample_system 0%nat) H1 H2 H3 H4 H5).
Defined.

(** ** The driver and the flat PNG *)

(** X10: a run that completes has made exactly fifteen calls, in this
    order: the creation of its output directory, the banner and a rule of
    50 equals signs, then for each of icon.ico, icon.icns and icon.png
    the opening of the file, the writing of its bytes and a line naming
    its path, then the rule again, the success line and the location.
    It opens no other file, and the bytes it writes are those of the two
    containers and of the PNG of size 512. *)
Theorem main_touches_only_its_files `{Externals} `{System} (env : Env) (w w' : World) :
  main env w = (Ok (), w') →
  ∃ ico icns png,
    ico_file ico_sizes = Ok ico
    ∧ icns_file icns_sizes = Ok icns
    ∧ png_file DEFAULT_ICON_SIZE = Ok png
    ∧ calls w' = calls w ++ calls_of_run env ico icns png.
Proof.
  unfold main. rewrite resolve_output_dir_run. intros Hrun.
  apply and_then_Ok in Hrun as (d & w1 & Hdir & Hrun).
  apply makedirs_Ok in Hdir as [-> Hc1].
  apply and_then_Ok in Hrun as ([] & w2 & Hc2 & Hrun). apply call_result in Hc2.
  apply and_then_Ok in Hrun as ([] & w3 & Hc3 & Hrun). apply call_result in Hc3.
  apply and_then_Ok in Hrun as ([] & w4 & Hc4 & Hrun).
  apply create_ico_with_Ok in Hc4 as (ico & Hico & Hc4).
  apply and_then_Ok in Hrun as ([] & w5 & Hc5 & Hrun).
  apply create_icns_with_Ok in Hc5 as (icns & Hicns & Hc5).
  apply and_then_Ok in Hrun as ([] & w6 & Hc6 & Hrun).
  apply create_png_Ok in Hc6 as (png & Hpng & Hc6).
  apply and_then_Ok in Hrun as ([] & w7 & Hc7 & Hrun). apply call_result in Hc7.
  apply and_then_Ok in Hrun as ([] & w8 & Hc8 & Hc9). apply call_result in Hc8, Hc9.
  exists ico, icns, png. split; [done|]. split; [done|]. split; [done|].
  rewrite Hc9, Hc8, Hc7, Hc6, Hc5, Hc4, Hc3, Hc2, Hc1.
  rewrite <- !app_assoc. reflexivity.
Qed.

Lemma main_touches_only_its_files_sample_run :
  let w := @empty_world sample_system 0%nat in
  @main sample_externals sample_system sample_env w
  = (Ok (), (@main sample_externals sample_system sample_env w).2)
  ∧ ∃ ico icns png,
      @ico_file sample_externals ico_sizes = Ok ico
      ∧ @icns_file sample_externals icns_sizes = Ok icns
      ∧ @png_file sample_externals DEFAULT_ICON_SIZE = Ok png
      ∧ calls (@main sample_externals sample_system sample_env w).2
        = calls w ++ calls_of_run sample_env ico icns png.
Proof.
  intros w.
  assert (Hrun : @main sample_externals sample_system sample_env w
                 = (Ok (), (@main sample_externals sample_system sample_env w).2)).
  { destruct (@main sample_externals sample_system sample_env w) as [r w'] eqn:Hmain.
    assert (Hr : (@main sample_externals sample_system sample_env w).1 = Ok ())
      by (vm_compute; reflexivity).
    rewrite Hmain in Hr. simpl in Hr. by rewrite Hr. }
  split; [exact Hrun|].
  exact (@main_touches_only_its_files sample_externals sample_system sample_env w _ Hrun).
Defined.

(** When the system refuses to open icon.icns, the sample run raises
    OSError there: the seventh call is its last. *)
Example main_stops_at_refused_call :
  let system :=
    refusing_system (fun c => match c with
                              | Open path => String.eqb path "out/icon.icns"
                              | _ => false
                              end) in
  let run := @main sample_externals system sample_env (@empty_world system 0%nat) in
  run.1 = Err OSError
  ∧ length (calls run.2) = 7%nat
  ∧ last (calls run.2) = Some (Open "out/icon.icns").
Proof. vm_compute. repeat split; reflexivity. Qed.



(** ** Sizes that raise *)




(** ** The Windows container for any size list *)

Lemma insert_size_diag (s : Z) (l : list Z) :
  Ico.insert_size (s, s) (map (fun x => (x, x)) l) = map (fun x => (x, x)) (insert_sorted s l).
Proof.
  induction l as [|x l IH]; [done|]. cbn [map Ico.insert_size insert_sorted].
  unfold Ico.size_ltb, Ico.size_eqb. cbn [fst snd].
  destruct (Z.ltb_spec s x) as [Hlt|Hge]; [done|].
  destruct (Z.eqb_spec s x) as [->|Hne]; cbn [andb orb]; [done|].
  by rewrite IH.
Qed.

Lemma sorted_set_diag (sizes : list Z) :
  Ico.sorted_set (map (fun s => (s, s)) sizes) = map (fun s => (s, s)) (sorted_distinct sizes).
Proof.
  unfold Ico.sorted_set, sorted_distinct.
  induction sizes as [|s sizes IH]; [done|]. cbn [map foldr]. by rewrite IH, insert_size_diag.
Qed.

Lemma elem_of_insert_sorted (s x : Z) (l : list Z) :
  x ∈ insert_sorted s l ↔ x = s ∨ x ∈ l.
Proof.
  induction l as [|y l IH]; cbn [insert_sorted].
  - rewrite elem_of_cons. tauto.
  - destruct (Z.ltb_spec s y); [rewrite elem_of_cons; tauto|].
    destruct (Z.eqb_spec s y) as [->|]; [rewrite elem_of_cons; tauto|].
    rewrite !elem_of_cons, IH. tauto.
Qed.

Lemma elem_of_sorted_distinct (x : Z) (sizes : list Z) :
  x ∈ sorted_distinct sizes ↔ x ∈ sizes.
Proof.
  unfold sorted_distinct. induction sizes as [|s sizes IH]; cbn [foldr]; [done|].
  rewrite elem_of_insert_sorted, IH, elem_of_cons. tauto.
Qed.

Lemma insert_sorted_sorted (s : Z) (l : list Z) :
  StronglySorted Z.lt l → StronglySorted Z.lt (insert_sorted s l).
Proof.
  induction 1 as [|y l Hl IH Hy]; cbn [insert_sorted]; [repeat constructor|].
  destruct (Z.ltb_spec s y) as [Hlt|Hge].
  - constructor; [by constructor|]. constructor; [done|].
    eapply Forall_impl; [exact Hy|]. intros z Hz. simpl in Hz. lia.
  - destruct (Z.eqb_spec s y) as [->|Hne]; [by constructor|].
    constructor; [done|]. apply Forall_forall. intros z Hz.
    apply elem_of_insert_sorted in Hz as [->|Hz]; [lia|].
    rewrite Forall_forall in Hy. by apply Hy.
Qed.

Lemma sorted_distinct_sorted (sizes : list Z) : StronglySorted Z.lt (sorted_distinct sizes).
Proof.
  unfold sorted_distinct. induction sizes as [|s sizes IH]; cbn [foldr]; [constructor|].
  by apply insert_sorted_sorted.
Qed.

Lemma sorted_filter (P : Z → Prop) `{∀ x, Decision (P x)} (l : list Z) :
  StronglySorted Z.lt l → StronglySorted Z.lt (filter P l).
Proof.
  induction 1 as [|y l Hl IH Hy]; [constructor|].
  rewrite filter_cons. destruct (decide (P y)); [|done].
  constructor; [done|]. apply Forall_forall. intros z Hz.
  apply list_elem_of_filter in Hz as [_ Hz]. rewrite Forall_forall in Hy. by apply Hy.
Qed.

Lemma kept_sizes_spec (first : Z) (rest : list Z) :
  StronglySorted Z.lt (kept_sizes (first :: rest))
  ∧ ∀ s, s ∈ kept_sizes (first :: rest) ↔ s ∈ first :: rest ∧ s ≤ first ∧ s ≤ 256.
Proof.
  unfold kept_sizes. split.
  - apply sorted_filter. apply sorted_distinct_sorted.
  - intros s. rewrite list_elem_of_filter, elem_of_sorted_distinct. tauto.
Qed.

Section IcoDirectory.
Context `{Externals}.

(** The frames of a save are the rasterized bitmaps of the kept sizes. *)
Lemma frames_kept (first : Z) (rest : list Z) (im : Image) (imgs : list Image) :
  Forall2 (fun size img => create_base_icon size = Ok img ∧ bitmap_of_size size img)
          (first :: rest) (im :: imgs) →
  Forall2 (fun s frame => create_base_icon s = Ok frame ∧ bitmap_of_size s frame)
          (kept_sizes (first :: rest))
          (Ico.frames im (map (fun s => (s, s)) (first :: rest)) imgs).
Proof.
  intros Hall. unfold Ico.frames, kept_sizes.
  assert (Him : im_size im = (first, first)).
  { inversion Hall as [|? ? ? ? [_ (_ & Hs & _)] _]; subst. exact Hs. }
  rewrite Him, sorted_set_diag.
  assert (Hin : ∀ s, s ∈ sorted_distinct (first :: rest) → s ∈ first :: rest)
    by (intros s; apply elem_of_sorted_distinct).
  revert Hin. generalize (sorted_distinct (first :: rest)). intros l.
  induction l as [|s l IH]; intros Hin; [constructor|].
  cbn [map flat_map fst snd]. rewrite filter_cons.
  assert (Hs : s ∈ first :: rest) by (apply Hin; left).
  assert (Hl : ∀ s', s' ∈ l → s' ∈ first :: rest) by (intros s' Hs'; apply Hin; by right).
  destruct (decide (s ≤ first ∧ s ≤ 256)) as [[H1 H2]|Hno].
  - destruct (Z.ltb_spec first s); [lia|]. destruct (Z.ltb_spec 256 s); [lia|].
    cbn [orb].
    destruct (find _ (im :: imgs)) as [p|] eqn:Hfind.
    + apply find_some in Hfind as [Hp Heq]. cbn [app]. constructor; [|by apply IH].
      apply list_elem_of_In in Hp.
      apply list_elem_of_lookup in Hp as [i Hi].
      destruct (Forall2_lookup_r _ _ _ i p Hall Hi) as (s' & _ & Hrun & Hbitmap).
      pose proof Hbitmap as (_ & Hsize & _). unfold Ico.size_eqb in Heq.
      rewrite Hsize in Heq. cbn [fst snd] in Heq.
      apply andb_true_iff in Heq as [Heq _]. apply Z.eqb_eq in Heq. by subst s'.
    + exfalso. apply list_elem_of_lookup in Hs as [i Hi].
      destruct (Forall2_lookup_l _ _ _ i s Hall Hi) as (p & Hp & _ & (_ & Hsize & _)).
      pose proof (find_none _ _ Hfind p) as Hnone.
      assert (Hpin : In p (im :: imgs)).
      { apply list_elem_of_In, list_elem_of_lookup. by exists i. }
      specialize (Hnone Hpin). unfold Ico.size_eqb in Hnone. rewrite Hsize in Hnone.
      cbn [fst snd] in Hnone. by rewrite Z.eqb_refl in Hnone.
  - assert (Hskip : (first <? s) || (first <? s) || (256 <? s) || (256 <? s) = true).
    { destruct (Z.ltb_spec first s); [done|]. destruct (Z.ltb_spec 256 s); [done|]. lia. }
    rewrite Hskip. cbn [app]. by apply IH.
Qed.


Lemma entry_inv (frame : Image) (offset s : Z) (e p : list byte) :
  im_size frame = (s, s) → 0 < s →
  Ico.entry frame offset = Ok (e, p) →
  p = png_encode frame ∧ Bytes.len p < 2 ^ 32 ∧ 0 ≤ offset < 2 ^ 32
  ∧ e = entry_bytes (s, s, Bytes.len p, offset).
Proof.
  intros Hsize Hpos. unfold Ico.entry. rewrite Hsize.
  change (Ico.o16 32) with (Ok [Bytes.of_Z 32; Bytes.of_Z (32 ≫ 8)]). rewrite bind_Ok.
  unfold PIL.save_png. rewrite Hsize. simpl fst. simpl snd.
  destruct (Z.leb_spec s 0); [lia|]. simpl orb. cbv iota. rewrite bind_Ok.
  unfold Ico.o32.
  destruct (struct.pack_LE_I (Bytes.len (png_encode frame))) as [len_field|] eqn:Hlen;
    [|discriminate].
  rewrite bind_Ok.
  destruct (struct.pack_LE_I offset) as [off_field|] eqn:Hoff; [|discriminate].
  rewrite bind_Ok. intros [= <- <-].
  apply pack_LE_I_Ok in Hlen as [Hlen ->]. apply pack_LE_I_Ok in Hoff as [Hoff ->].
  split; [done|]. split; [lia|]. split; [done|].
  reflexivity.
Qed.

Lemma write_frames_inv (kept : list Z) (fs : list Image) (offset : Z) (dir data : list byte) :
  Forall2 (fun s frame => create_base_icon s = Ok frame ∧ bitmap_of_size s frame) kept fs →
  Forall (fun s => 0 < s) kept →
  Ico.write_frames fs offset = Ok (dir, data) →
  dir = concat (map entry_bytes (directory_of (zip kept (map png_encode fs)) offset))
  ∧ data = concat (map png_encode fs)
  ∧ Forall (fun e => 0 ≤ e.1.2 < 2 ^ 32 ∧ 0 ≤ e.2 < 2 ^ 32)
           (directory_of (zip kept (map png_encode fs)) offset).
Proof.
  intros Hall. revert offset dir data.
  induction Hall as [|s frame kept fs [_ (_ & Hsize & _)] _ IH]; intros offset dir data Hpos.
  - intros [= <- <-]. repeat split. constructor.
  - inversion Hpos as [|? ? Hs Hpos']; subst. cbn [Ico.write_frames].
    destruct (Ico.entry frame offset) as [[e p]|] eqn:Hentry; [|discriminate].
    rewrite bind_Ok. cbn [fst snd].
    destruct (Ico.write_frames fs (offset + Bytes.len p)) as [[dir' data']|] eqn:Hrest;
      [|discriminate].
    rewrite bind_Ok. cbn [fst snd]. intros [= <- <-].
    destruct (entry_inv frame offset s e p Hsize Hs Hentry) as (-> & Hlen & Hoff & ->).
    destruct (IH _ _ _ Hpos' Hrest) as (-> & -> & Hranges).
    cbn [map zip zip_with directory_of concat].
    pose proof (len_nonneg (png_encode frame)).
    repeat split; try done. constructor; [|done]. cbn [fst snd]. lia.
Qed.

End IcoDirectory.

Lemma le_decode_le16 (n : Z) :
  0 ≤ n < 2 ^ 16 → Bytes.le_decode [Bytes.of_Z n; Bytes.of_Z (n ≫ 8)] = n.
Proof.
  intros Hn. unfold Bytes.le_decode. simpl fold_right.
  rewrite !to_Z_of_Z, !Z.shiftr_div_pow2 by lia.
  change (2 ^ 16) with 65536 in Hn. change (2 ^ 8) with 256.
  Z.div_mod_to_equations. lia.
Qed.

Lemma dim_o8 (w : Z) :
  0 < w ≤ 256 →
  Ico.dim (Bytes.of_Z (Z.land (if w <? 256 then w else 0) 255)) = w.
Proof.
  intros Hw. unfold Ico.dim. rewrite to_Z_of_Z.
  change 255 with (Z.ones 8). rewrite Z.land_ones by lia. change (2 ^ 8) with 256.
  destruct (Z.ltb_spec w 256).
  - rewrite Z.mod_mod by lia. rewrite Z.mod_small by lia.
    destruct (Z.eqb_spec w 0); [lia | done].
  - change (0 mod 256 mod 256) with 0. simpl. lia.
Qed.

Lemma length_entry_bytes (e : Z * Z * Z * Z) : length (entry_bytes e) = 16%nat.
Proof. by destruct e as [[[w h] len] off]. Qed.

Lemma length_concat_entries (entries : list (Z * Z * Z * Z)) :
  length (concat (map entry_bytes entries)) = (16 * length entries)%nat.
Proof.
  induction entries as [|e entries IH]; [done|].
  cbn [map concat]. rewrite length_app, length_entry_bytes, IH. simpl length. lia.
Qed.

(** An entry read from the place it was written at. *)
Lemma read_entry_at (hdr : list byte) (done_ todo : list (Z * Z * Z * Z)) (data : list byte)
    (w h len off : Z) :
  length hdr = 6%nat →
  0 < w ≤ 256 → 0 < h ≤ 256 → 0 ≤ len < 2 ^ 32 → 0 ≤ off < 2 ^ 32 →
  Ico.read_entry
    (hdr ++ concat (map entry_bytes (done_ ++ (w, h, len, off) :: todo)) ++ data)
    (length done_)
  = (w, h, len, off).
Proof.
  intros Hhdr Hw Hh Hlen Hoff. unfold Ico.read_entry, Bytes.slice.
  replace (6 + 16 * length done_ + 16 - (6 + 16 * length done_))%nat with 16%nat by lia.
  rewrite map_app, concat_app. cbn [map concat].
  rewrite <- !app_assoc.
  rewrite (app_assoc hdr), drop_app_length'
    by (rewrite length_app, length_concat_entries; lia).
  rewrite take_app_length' by (symmetry; apply length_entry_bytes).
  unfold entry_bytes. cbn [app Ico.o8 lookup list_lookup default from_option id take drop Nat.sub].
  rewrite !dim_o8 by done.
  by rewrite !le_decode_le32 by done.
Qed.

Lemma pack_LE_H_Ok (n : Z) (bs : list byte) :
  struct.pack_LE_H n = Ok bs ↔ 0 ≤ n < 2 ^ 16 ∧ bs = [Bytes.of_Z n; Bytes.of_Z (n ≫ 8)].
Proof.
  unfold struct.pack_LE_H.
  destruct (struct.in_range 16 n) eqn:Hr.
  - apply in_range_spec in Hr. split; [intros [= <-]; done | intros [_ ->]; done].
  - split; [done|]. intros [Hn _]. apply in_range_spec in Hn. congruence.
Qed.

(** Well-formed directory entries (dimensions from 1 to 256, length and
    offset in 32 bits) read back from where they were written. *)
Lemma entries_read_back (hdr : list byte) (done_ todo : list (Z * Z * Z * Z))
    (data : list byte) :
  length hdr = 6%nat →
  Forall (fun e => 0 < e.1.1.1 ≤ 256 ∧ 0 < e.1.1.2 ≤ 256
                   ∧ 0 ≤ e.1.2 < 2 ^ 32 ∧ 0 ≤ e.2 < 2 ^ 32) todo →
  map (Ico.read_entry (hdr ++ concat (map entry_bytes (done_ ++ todo)) ++ data))
      (seq (length done_) (length todo))
  = todo.
Proof.
  intros Hhdr Htodo. revert done_.
  induction Htodo as [|[[[w h] len] off] todo (Hw & Hh & Hlen & Hoff) _ IH]; intros done_;
    [done|].
  cbn [length seq map]. f_equal.
  - by apply read_entry_at.
  - specialize (IH (done_ ++ [(w, h, len, off)])).
    rewrite <- app_assoc in IH. cbn [app] in IH.
    rewrite length_app in IH. cbn [length] in IH.
    by replace (length done_ + 1)%nat with (S (length done_)) in IH by lia.
Qed.

Lemma directory_read_back (entries : list (Z * Z * Z * Z)) (data : list byte) :
  Forall (fun e => 0 < e.1.1.1 ≤ 256 ∧ 0 < e.1.1.2 ≤ 256
                   ∧ 0 ≤ e.1.2 < 2 ^ 32 ∧ 0 ≤ e.2 < 2 ^ 32) entries →
  Z.of_nat (length entries) < 2 ^ 16 →
  let n := Z.of_nat (length entries) in
  let blob := Ico._MAGIC ++ [Bytes.of_Z n; Bytes.of_Z (n ≫ 8)]
              ++ concat (map entry_bytes entries) ++ data in
  Ico.count blob = n ∧ Ico.directory blob = entries.
Proof.
  intros Hentries Hn n blob.
  assert (Hcount : Ico.count blob = n).
  { change (Ico.count blob) with (Bytes.le_decode [Bytes.of_Z n; Bytes.of_Z (n ≫ 8)]).
    apply le_decode_le16. subst n. lia. }
  split; [done|]. unfold Ico.directory. rewrite Hcount. subst n. rewrite Nat2Z.id.
  subst blob. rewrite (app_assoc Ico._MAGIC).
  by apply (entries_read_back _ [] entries data).
Qed.

Lemma payload_slices (pre : list byte) (kept : list Z) (payloads : list (list byte)) :
  length kept = length payloads →
  Forall2 (fun e p => Bytes.slice (Z.to_nat e.2) (Z.to_nat (e.2 + e.1.2))
                                  (pre ++ concat payloads) = p)
          (directory_of (zip kept payloads) (Bytes.len pre)) payloads.
Proof.
  revert pre kept. induction payloads as [|p payloads IH]; intros pre kept Hlen.
  - destruct kept; [constructor | discriminate].
  - destruct kept as [|s kept]; [discriminate|]. injection Hlen as Hlen.
    cbn [zip zip_with directory_of concat]. constructor.
    + cbn [fst snd]. unfold Bytes.slice, Bytes.len.
      rewrite Nat2Z.id. replace (Z.to_nat (Z.of_nat (length pre) + Z.of_nat (length p))
                                 - length pre)%nat with (length p) by lia.
      by rewrite drop_app_length, take_app_length.
    + specialize (IH (pre ++ p) kept Hlen).
      rewrite len_app in IH. by rewrite <- app_assoc in IH.
Qed.

Lemma directory_of_sizes (kept : list Z) (payloads : list (list byte)) (offset : Z) :
  length kept = length payloads →
  Forall (fun s => 0 < s ≤ 256) kept →
  Forall (fun e => 0 < e.1.1.1 ≤ 256 ∧ 0 < e.1.1.2 ≤ 256)
         (directory_of (zip kept payloads) offset)
  ∧ map (fun e => e.1.1.1) (directory_of (zip kept payloads) offset) = kept
  ∧ length (directory_of (zip kept payloads) offset) = length kept.
Proof.
  revert payloads offset. induction kept as [|s kept IH]; intros [|p payloads] offset Hlen Hs;
    try discriminate.
  - repeat split. constructor.
  - injection Hlen as Hlen. inversion Hs as [|? ? Hs1 Hs']; subst.
    destruct (IH payloads (offset + Bytes.len p) Hlen Hs') as (H1 & H2 & H3).
    cbn [zip zip_with directory_of map length fst snd]. rewrite H2, H3.
    repeat split. by constructor.
Qed.

(** X14: for a list of positive sizes, the Windows container that
    [create_ico] would write keeps the sizes of the list that are neither
    above its first size nor above 256, in ascending order and each once.
    Its count field is their number, its directory has one entry per kept
    size with that size, the byte length of that size's PNG and its
    offset, the first payload right after the directory and each next one
    right after the previous, and the bytes at each entry's offset are
    that PNG. *)
Theorem ico_file_directory `{Externals} (first : Z) (rest : list Z) (blob : list byte) :
  Forall (fun s => 0 < s) (first :: rest) →
  ico_file (first :: rest) = Ok blob →
  StronglySorted Z.lt (kept_sizes (first :: rest))
  ∧ (∀ s, s ∈ kept_sizes (first :: rest) ↔ s ∈ first :: rest ∧ s ≤ first ∧ s ≤ 256)
  ∧ ∃ payloads,
      Forall2 (fun s p => png_file s = Ok p) (kept_sizes (first :: rest)) payloads
      ∧ Ico.count blob = Z.of_nat (length (kept_sizes (first :: rest)))
      ∧ Ico.directory blob
        = directory_of (zip (kept_sizes (first :: rest)) payloads)
                       (6 + 16 * Z.of_nat (length (kept_sizes (first :: rest))))
      ∧ Forall2 (fun e p => Bytes.slice (Z.to_nat e.2) (Z.to_nat (e.2 + e.1.2)) blob = p)
                (Ico.directory blob) payloads.
Proof.
  intros Hpos Hrun.
  destruct (kept_sizes_spec first rest) as [Hsorted Hmem].
  split; [done|]. split; [done|].
  destruct (list_comprehension create_base_icon (first :: rest)) as [images|e] eqn:Himages;
    [|by unfold ico_file in Hrun; rewrite Himages in Hrun].
  assert (Hall : Forall2 (fun size img => create_base_icon size = Ok img
                                          ∧ bitmap_of_size size img)
                         (first :: rest) images).
  { apply list_comprehension_Ok in Himages. eapply Forall2_impl; [exact Himages|].
    intros s img Hs. split; [exact Hs|]. exact (proj2 (create_base_icon_Ok s img Hs)). }
  destruct images as [|im imgs]; [by inversion Hall|].
  pose proof (frames_kept first rest im imgs Hall) as Hframes.
  remember (kept_sizes (first :: rest)) as kept eqn:Hkept_def.
  unfold ico_file in Hrun. rewrite Himages, bind_Ok in Hrun.
  change (py_index (im :: imgs) 0) with (Ok im) in Hrun. rewrite bind_Ok in Hrun.
  change (drop 1 (im :: imgs)) with imgs in Hrun.
  unfold Ico.save in Hrun. cbv zeta in Hrun.
  set (fs := Ico.frames im (map (fun s => (s, s)) (first :: rest)) imgs) in *.
  assert (Hlen : length kept = length fs) by (by eapply Forall2_length).
  assert (Hkept_pos : Forall (fun s => 0 < s ≤ 256) kept).
  { apply Forall_forall. intros s Hs. apply Hmem in Hs as (Hin & _ & H256).
    rewrite Forall_forall in Hpos. specialize (Hpos s Hin). simpl in Hpos. lia. }
  unfold Ico.o16 in Hrun.
  destruct (struct.pack_LE_H (Z.of_nat (length fs))) as [count|] eqn:Hcount; [|discriminate].
  apply pack_LE_H_Ok in Hcount as [Hn ->]. rewrite bind_Ok in Hrun.
  destruct (Ico.write_frames fs _) as [[dir data]|] eqn:Hwrite; [|discriminate].
  rewrite bind_Ok in Hrun. cbn [fst snd] in Hrun. injection Hrun as <-.
  assert (Hkept_pos' : Forall (fun s => 0 < s) kept)
    by (eapply Forall_impl; [exact Hkept_pos|]; intros s Hs; simpl in Hs; lia).
  destruct (write_frames_inv kept fs _ dir data Hframes Hkept_pos' Hwrite)
    as (-> & -> & Hranges).
  set (payloads := map png_encode fs) in *.
  assert (Hlenp : length kept = length payloads)
    by (subst payloads; by rewrite length_map).
  change (Bytes.len (Ico._MAGIC ++ [Bytes.of_Z (Z.of_nat (length fs));
                                    Bytes.of_Z (Z.of_nat (length fs) ≫ 8)]))
    with 6 in *.
  replace (6 + Z.of_nat (length fs) * 16) with (6 + 16 * Z.of_nat (length kept)) in * by lia.
  set (offset := 6 + 16 * Z.of_nat (length kept)) in *.
  set (entries := directory_of (zip kept payloads) offset) in *.
  destruct (directory_of_sizes kept payloads offset Hlenp Hkept_pos) as (Hdims & _ & Hlen_e).
  fold entries in Hdims, Hlen_e.
  assert (Hentries : Forall (fun e => 0 < e.1.1.1 ≤ 256 ∧ 0 < e.1.1.2 ≤ 256
                                      ∧ 0 ≤ e.1.2 < 2 ^ 32 ∧ 0 ≤ e.2 < 2 ^ 32) entries).
  { rewrite Forall_forall in Hdims, Hranges. apply Forall_forall. intros e He.
    destruct (Hdims e He), (Hranges e He). done. }
  rewrite <- Hlen, <- Hlen_e in Hn.
  destruct (directory_read_back entries (concat payloads) Hentries (proj2 Hn))
    as [Hcount Hdir].
  rewrite Hlen_e, Hlen in Hcount, Hdir.
  exists payloads.
  match goal with
  | |- context [Ico.count ?b] =>
      change b with (Ico._MAGIC ++ [Bytes.of_Z (Z.of_nat (length fs));
                                    Bytes.of_Z (Z.of_nat (length fs) ≫ 8)]
                     ++ concat (map entry_bytes entries) ++ concat payloads)
  end.
  split; [|split; [|split]].
  - subst payloads. clear -Hframes Hkept_pos.
    induction Hframes as [|s frame kept fs [Hraster (_ & Hsize & _)] _ IH]; [constructor|].
    inversion Hkept_pos as [|? ? Hs Hkept']; subst. cbn [map]. constructor; [|by apply IH].
    unfold png_file. rewrite Hraster, bind_Ok. unfold PIL.save_png. rewrite Hsize.
    cbn [fst snd]. destruct (Z.leb_spec s 0); [lia | done].
  - rewrite Hcount. by rewrite Hlen.
  - exact Hdir.
  - rewrite Hdir.
    pose proof (payload_slices
                  (Ico._MAGIC ++ [Bytes.of_Z (Z.of_nat (length fs));
                                  Bytes.of_Z (Z.of_nat (length fs) ≫ 8)]
                   ++ concat (map entry_bytes entries)) kept payloads Hlenp) as Hslices.
    replace (Bytes.len (Ico._MAGIC ++ [Bytes.of_Z (Z.of_nat (length fs));
                                       Bytes.of_Z (Z.of_nat (length fs) ≫ 8)]
                        ++ concat (map entry_bytes entries))) with offset in Hslices.
    + by rewrite <- !app_assoc in Hslices.
    + unfold Bytes.len. rewrite !length_app, length_concat_entries, Hlen_e.
      subst offset. simpl length. lia.
Qed.

Lemma ico_file_directory_sample :
  (Forall (fun s => 0 < s) [64; 16; 32; 16; 128]
   ∧ @ico_file sample_externals [64; 16; 32; 16; 128] = Ok sample_ico_blob)
  ∧ StronglySorted Z.lt (kept_sizes [64; 16; 32; 16; 128])
  ∧ (∀ s, s ∈ kept_sizes [64; 16; 32; 16; 128]
          ↔ s ∈ [64; 16; 32; 16; 128] ∧ s ≤ 64 ∧ s ≤ 256)
  ∧ ∃ payloads,
      Forall2 (fun s p => @png_file sample_externals s = Ok p)
              (kept_sizes [64; 16; 32; 16; 128]) payloads
      ∧ Ico.count sample_ico_blob = Z.of_nat (length (kept_sizes [64; 16; 32; 16; 128]))
      ∧ Ico.directory sample_ico_blob
        = directory_of (zip (kept_sizes [64; 16; 32; 16; 128]) payloads)
                       (6 + 16 * Z.of_nat (length (kept_sizes [64; 16; 32; 16; 128])))
      ∧ Forall2 (fun e p => Bytes.slice (Z.to_nat e.2) (Z.to_nat (e.2 + e.1.2))
                                        sample_ico_blob = p)
                (Ico.directory sample_ico_blob) payloads.
Proof.
  assert (Hpos : Forall (fun s => 0 < s) [64; 16; 32; 16; 128]) by (repeat constructor).
  assert (Hrun : @ico_file sample_externals [64; 16; 32; 16; 128] = Ok sample_ico_blob)
    by (vm_compute; reflexivity).
  split; [exact (conj Hpos Hrun)|].
  exact (@ico_file_directory sample_externals 64 [16; 32; 16; 128] sample_ico_blob Hpos Hrun).
Defined.

(** ** Further facts on the Apple container and the gradient *)

Lemma elements_layout_app (e1 e2 : list (list byte * list byte)) :
  Icns.elements_layout (e1 ++ e2) = Icns.elements_layout e1 ++ Icns.elements_layout e2.
Proof. unfold Icns.elements_layout. by rewrite map_app, concat_app. Qed.

(** X15: packing two tables one after the other gives the elements of the
    first followed by the elements of the second, byte for byte, under a
    header whose length field is the sum of the two lengths less the 8
    bytes of one header; an element's bytes do not depend on where its row
    stands. *)
Theorem icns_file_app `{Externals} (rows1 rows2 : list (Z * string)) (blob1 blob2 : list byte) :
  icns_file rows1 = Ok blob1 → icns_file rows2 = Ok blob2 →
  Bytes.len blob1 + Bytes.len blob2 - 8 < 2 ^ 32 →
  icns_file (rows1 ++ rows2)
  = Ok (Bytes.lit "icns" ++ Icns.be32 (Bytes.len blob1 + Bytes.len blob2 - 8)
        ++ drop 8 blob1 ++ drop 8 blob2).
Proof.
  intros Hrun1 Hrun2 Hlen.
  apply icns_file_Ok in Hrun1 as (e1 & Hall1 & Hlens1 & Htot1 & ->).
  apply icns_file_Ok in Hrun2 as (e2 & Hall2 & Hlens2 & Htot2 & ->).
  rewrite !len_blob_layout in Hlen. rewrite !len_blob_layout.
  change (drop 8 (Icns.blob_layout e1)) with (Icns.elements_layout e1).
  change (drop 8 (Icns.blob_layout e2)) with (Icns.elements_layout e2).
  apply icns_file_Ok. exists (e1 ++ e2).
  split; [by apply Forall2_app|]. split; [by apply Forall_app|].
  rewrite elements_layout_app, len_app. split; [lia|].
  unfold Icns.blob_layout. cbv zeta. rewrite elements_layout_app, len_app.
  do 2 f_equal. f_equal. lia.
Qed.

Lemma icns_file_app_sample :
  (@icns_file sample_externals [(16, "ic04")] = Ok sample_icns_single
   ∧ @icns_file sample_externals icns_sizes = Ok sample_icns_blob
   ∧ Bytes.len sample_icns_single + Bytes.len sample_icns_blob - 8 < 2 ^ 32)
  ∧ @icns_file sample_externals ([(16, "ic04")] ++ icns_sizes)
    = Ok (Bytes.lit "icns"
          ++ Icns.be32 (Bytes.len sample_icns_single + Bytes.len sample_icns_blob - 8)
          ++ drop 8 sample_icns_single ++ drop 8 sample_icns_blob).
Proof.
  assert (H1 : @icns_file sample_externals [(16, "ic04")] = Ok sample_icns_single)
    by (vm_compute; reflexivity).
  assert (H2 : @icns_file sample_externals icns_sizes = Ok sample_icns_blob)
    by (vm_compute; reflexivity).
  assert (H3 : Bytes.len sample_icns_single + Bytes.len sample_icns_blob - 8 < 2 ^ 32)
    by (vm_compute; reflexivity).
  split; [exact (conj H1 (conj H2 H3))|].
  exact (@icns_file_app sample_externals _ _ _ _ H1 H2 H3).
Defined.

(** X16: the alpha of turn i is the exact value of 255 * (10 - i) / 10
    rounded down, except at turn 8, where the binary64 arithmetic of
    [255 * (1 - i/10)] falls just below 51 and the alpha is 50. *)
Theorem gradient_alpha_rounding (i : Z) :
  0 ≤ i < GRADIENT_ITERATIONS →
  gradient_alpha i = 255 * (GRADIENT_ITERATIONS - i) / GRADIENT_ITERATIONS
                     - (if i =? 8 then 1 else 0).
Proof.
  unfold GRADIENT_ITERATIONS. intros Hi.
  assert (Hcases : i = 0 ∨ i = 1 ∨ i = 2 ∨ i = 3 ∨ i = 4 ∨ i = 5 ∨ i = 6 ∨ i = 7 ∨ i = 8 ∨ i = 9)
    by lia.
  repeat destruct Hcases as [Hcases|Hcases]; subst i; vm_compute; reflexivity.
Qed.

Lemma gradient_alpha_rounding_at_8 :
  0 ≤ 8 < GRADIENT_ITERATIONS
  ∧ gradient_alpha 8 = 255 * (GRADIENT_ITERATIONS - 8) / GRADIENT_ITERATIONS
                       - (if 8 =? 8 then 1 else 0).
Proof. split; [done|]. apply (gradient_alpha_rounding 8). done. Defined.
